(** * GroceryVault: intent authorization and spend-policy engine

    A shallow embedding of the [GroceryVault] contract (Solidity ^0.8.20)
    and proofs of the properties its specification states.

    Modelling conventions.
    - [uint256], [address] and [bytes32] values are natural numbers ([N]);
      ABI decoding keeps the arguments of a call within their types.
      Solidity 0.8 arithmetic is checked, so [+] is [checked_add], which
      aborts the call with [Panic_overflow] instead of wrapping around.
    - A [mapping] is a [gmap] read with the total lookup [!!!]: a key that
      was never written reads as the zero value of its type.
    - A function body is a computation in the state-and-error monad [M];
      an external call is a transaction ([transact]): when the body
      reverts, the EVM discards every state change the body made.
    - [keccak256], [ecrecover], the deployment constants and the ERC20
      tokens the vault talks to are the fields of the class [Chain].  A
      token is assumed not to call back into the vault while it is being
      called.
    - [block.timestamp] is a positive Unix time below [2^64]
      ([valid_timestamp]); the worlds the chain can produce from the
      deployment are the [reachable] ones. *)

From Stdlib Require Import NArith Lia.
From Stdlib.Strings Require Import Ascii String Byte.
From Stdlib.Numbers Require Import DecimalString.
From stdpp Require Import gmap list.

Local Open Scope N_scope.

(** ** Value types *)

Abbreviation uint256 := N (only parsing).
Abbreviation address := N (only parsing).
Abbreviation bytes32 := N (only parsing).
Abbreviation bytes := (list byte) (only parsing).

(** Number of values of a [uint256]. *)
Definition UINT256_MODULUS : N := 2 ^ 256.

(** [7 days] and [30 days], in seconds. *)
Definition SEVEN_DAYS : N := 7 * 86400.
Definition THIRTY_DAYS : N := 30 * 86400.

(** ** Types of the contract *)

Record Policy := mkPolicy {
  monthlyCap : uint256;
  weeklyCap : uint256;
  perTxCap : uint256;
  requireUserSig : bool
}.

Record Intent := mkIntent {
  user : address;
  merchant : address;
  token : address;
  amount : uint256;
  deadline : uint256;
  cartHash : bytes32;
  nonce : uint256
}.

Record SpendWindow := mkSpendWindow {
  weekStart : uint256;
  weekSpent : uint256;
  monthStart : uint256;
  monthSpent : uint256
}.

(** Zero values, read from a mapping slot that was never written. *)
Global Instance Policy_inhabited : Inhabited Policy :=
  populate (mkPolicy 0 0 0 false).
Global Instance SpendWindow_inhabited : Inhabited SpendWindow :=
  populate (mkSpendWindow 0 0 0 0).
Global Instance uint256_inhabited : Inhabited N := populate 0.
Global Instance flag_inhabited : Inhabited bool := populate false.

(** ** Storage *)

Record Storage := mkStorage {
  policyOf : gmap address Policy;
  merchantAllowed : gmap (address * address) bool;
  agentAllowed : gmap (address * address) bool;
  spend : gmap address SpendWindow;
  nonces : gmap address uint256;
  intentUsed : gmap bytes32 bool
}.

Definition empty_storage : Storage := mkStorage ∅ ∅ ∅ ∅ ∅ ∅.

Definition set_policyOf (a : address) (p : Policy) (s : Storage) : Storage :=
  mkStorage (<[a := p]> (policyOf s)) (merchantAllowed s) (agentAllowed s)
            (spend s) (nonces s) (intentUsed s).

Definition set_merchantAllowed (a m : address) (b : bool) (s : Storage) : Storage :=
  mkStorage (policyOf s) (<[(a, m) := b]> (merchantAllowed s)) (agentAllowed s)
            (spend s) (nonces s) (intentUsed s).

Definition set_agentAllowed (a g : address) (b : bool) (s : Storage) : Storage :=
  mkStorage (policyOf s) (merchantAllowed s) (<[(a, g) := b]> (agentAllowed s))
            (spend s) (nonces s) (intentUsed s).

Definition set_spend (a : address) (w : SpendWindow) (s : Storage) : Storage :=
  mkStorage (policyOf s) (merchantAllowed s) (agentAllowed s)
            (<[a := w]> (spend s)) (nonces s) (intentUsed s).

Definition set_nonces (a : address) (n : uint256) (s : Storage) : Storage :=
  mkStorage (policyOf s) (merchantAllowed s) (agentAllowed s)
            (spend s) (<[a := n]> (nonces s)) (intentUsed s).

Definition set_intentUsed (h : bytes32) (b : bool) (s : Storage) : Storage :=
  mkStorage (policyOf s) (merchantAllowed s) (agentAllowed s)
            (spend s) (nonces s) (<[h := b]> (intentUsed s)).

Arguments set_policyOf : simpl never.
Arguments set_merchantAllowed : simpl never.
Arguments set_agentAllowed : simpl never.
Arguments set_spend : simpl never.
Arguments set_nonces : simpl never.
Arguments set_intentUsed : simpl never.

(** ** Events *)

Inductive Event :=
| Deposited (usr tok : address) (amt : uint256)
| Withdrawn (usr tok : address) (amt : uint256) (to : address)
| PolicyUpdated (usr : address) (p : Policy)
| MerchantAllowed (usr mer : address) (allowed : bool)
| AgentAllowed (usr agent : address) (allowed : bool)
| IntentExecuted (intentId : bytes32) (usr mer tok : address) (amt : uint256).

(** ** Reverts

    One constructor per [require] message of the contract, the arithmetic
    panic of checked arithmetic, and a revert raised inside a called token. *)

Inductive Revert :=
| Rexpired            (* "expired" *)
| Ruser0              (* "user=0" *)
| Ramount0            (* "amount=0" *)
| RperTxCap           (* "perTx cap" *)
| RmerchantNotAllowed (* "merchant not allowed" *)
| RbadNonce           (* "bad nonce" *)
| RintentUsed         (* "intent used" *)
| RsigRequired        (* "sig required/invalid" *)
| RnotAuthorized      (* "not authorized" *)
| RsigInvalid         (* "sig invalid" *)
| RweeklyCap          (* "weekly cap" *)
| RmonthlyCap         (* "monthly cap" *)
| RtransferFailed     (* "transfer failed" *)
| RtransferFromFailed (* "transferFrom failed" *)
| RcapsPerTx          (* "caps: perTx too high" *)
| Rto0                (* "to=0" *)
| Panic_overflow      (* Panic(0x11) *)
| RcalleeReverted.    (* the called token reverted *)

Definition revert_message (r : Revert) : string :=
  match r with
  | Rexpired => "expired"
  | Ruser0 => "user=0"
  | Ramount0 => "amount=0"
  | RperTxCap => "perTx cap"
  | RmerchantNotAllowed => "merchant not allowed"
  | RbadNonce => "bad nonce"
  | RintentUsed => "intent used"
  | RsigRequired => "sig required/invalid"
  | RnotAuthorized => "not authorized"
  | RsigInvalid => "sig invalid"
  | RweeklyCap => "weekly cap"
  | RmonthlyCap => "monthly cap"
  | RtransferFailed => "transfer failed"
  | RtransferFromFailed => "transferFrom failed"
  | RcapsPerTx => "caps: perTx too high"
  | Rto0 => "to=0"
  | Panic_overflow => "Panic(0x11)"
  | RcalleeReverted => "callee reverted"
  end.

(** The error taxonomy of the specification, and the kind each revert of
    the contract falls under.  An arithmetic panic has no kind. *)

Inductive ErrorKind :=
| InvalidPolicy | Unauthorized | Expired | InvalidIntent
| PerTxCapExceeded | WeeklyCapExceeded | MonthlyCapExceeded
| MerchantNotAllowed | StaleNonce | IntentAlreadyUsed | TransferFailed.

Definition error_kind (r : Revert) : option ErrorKind :=
  match r with
  | Rexpired => Some Expired
  | Ruser0 | Ramount0 | Rto0 => Some InvalidIntent
  | RperTxCap => Some PerTxCapExceeded
  | RmerchantNotAllowed => Some MerchantNotAllowed
  | RbadNonce => Some StaleNonce
  | RintentUsed => Some IntentAlreadyUsed
  | RsigRequired | RnotAuthorized | RsigInvalid => Some Unauthorized
  | RweeklyCap => Some WeeklyCapExceeded
  | RmonthlyCap => Some MonthlyCapExceeded
  | RtransferFailed | RtransferFromFailed | RcalleeReverted => Some TransferFailed
  | RcapsPerTx => Some InvalidPolicy
  | Panic_overflow => None
  end.

(** ** Call environment *)

Record Env := mkEnv {
  msg_sender : address;
  block_timestamp : uint256
}.

(** ** ABI encoding *)

Definition byte_of (n : N) : byte :=
  match Byte.of_N (n mod 256) with
  | Some b => b
  | None => x00
  end.

(** The 32-byte big-endian word of a value ([abi.encode] of a static type). *)
Definition abi_word (n : N) : bytes :=
  map (fun i : nat => byte_of (n / 256 ^ N.of_nat (31 - i))) (seq 0 32).

Definition abi_encode (ws : list N) : bytes := concat (map abi_word ws).

(** The value of a big-endian byte string ([calldataload] of 32 bytes). *)
Definition be_value (bs : bytes) : N :=
  fold_left (fun acc b => acc * 256 + Byte.to_N b) bs 0.

(** ** The chain the vault runs on

    The hash and signature primitives of the EVM, the deployment constants
    [block.chainid] and [address(this)], and the ERC20 tokens behind the
    [IERC20] interface: [erc20_transfer tok caller to amt] is the call
    [IERC20(tok).transfer(to, amt)] made by [caller], and
    [erc20_transferFrom tok caller from to amt] the call
    [IERC20(tok).transferFrom(from, to, amt)].  [None] is a revert inside
    the token; otherwise the call returns a flag and the new ledger. *)

Class Chain := {
  keccak256 : bytes -> bytes32;
  ecrecover : bytes32 -> N -> bytes32 -> bytes32 -> address;
  chainid : uint256;
  this : address;
  Ledger : Type;
  erc20_transfer :
    address -> address -> address -> uint256 -> Ledger -> option (bool * Ledger);
  erc20_transferFrom :
    address -> address -> address -> address -> uint256 -> Ledger ->
    option (bool * Ledger)
}.

(** ** A reference chain

    Concrete primitives and a concrete token ledger, on which the model
    runs: a polynomial hash, a recovery function that reads the signer
    from the signature and checks that it covers the digest, and tokens
    that keep one balance per holder. *)

Module Ref.

Definition hash (bs : bytes) : bytes32 :=
  fold_left (fun acc b => (acc * 257 + Byte.to_N b + 1) mod UINT256_MODULUS) bs 0.

(** [(r, s, v)] is a signature of [digest] by [r] when [s = digest] and
    [v = 27]; as the precompile does, recovery yields 0 on failure. *)
Definition recover (digest : bytes32) (v : N) (r s : bytes32) : address :=
  if (v =? 27) && (s =? digest) then r else 0.

Definition sign (signer : address) (digest : bytes32) : bytes :=
  abi_word signer ++ abi_word digest ++ [byte_of 27].

(** Balances per (token, holder).  Address 0 holds no code: calling it
    reverts.  A transfer beyond the balance returns [false]. *)
Definition Balances := gmap (address * address) uint256.

Definition move (tok from to : address) (amt : uint256) (l : Balances)
  : option (bool * Balances) :=
  if tok =? 0 then None
  else if l !!! (tok, from) <? amt then Some (false, l)
  else
    let l1 := <[(tok, from) := l !!! (tok, from) - amt]> l in
    Some (true, <[(tok, to) := l1 !!! (tok, to) + amt]> l1).

Definition transfer (tok caller to : address) (amt : uint256) (l : Balances) :=
  move tok caller to amt l.

Definition transferFrom (tok caller from to : address) (amt : uint256)
  (l : Balances) :=
  move tok from to amt l.

Definition vault_address : address := 4096.

Definition chain : Chain :=
  Build_Chain hash recover 1 vault_address Balances transfer transferFrom.

End Ref.

(** ** The state-and-error monad of a function body *)

Inductive Result (A : Type) :=
| Ok (a : A)
| Err (r : Revert).
Arguments Ok {A} a.
Arguments Err {A} r.

Inductive Receipt :=
| Success
| Reverted (r : Revert).

Section Vault.

Context {chain : Chain}.

(** What a transaction can change: the vault's storage, the token
    ledger and the event log. *)
Record World := mkWorld {
  vault : Storage;
  ledger : Ledger;
  events : list Event
}.

Definition M (A : Type) : Type := World -> Result (A * World).

Definition ret {A} (a : A) : M A := fun w => Ok (a, w).

Definition bind {A B} (m : M A) (k : A -> M B) : M B :=
  fun w => match m w with
           | Ok (a, w') => k a w'
           | Err r => Err r
           end.

Notation "x <- m ;; k" := (bind m (fun x => k))
  (at level 100, m at next level, right associativity).
Notation "m ;; k" := (bind m (fun _ => k))
  (at level 100, right associativity).

Definition revert {A} (r : Revert) : M A := fun _ => Err r.

Definition require (c : bool) (r : Revert) : M unit :=
  if c then ret tt else revert r.

Definition sload {A} (f : Storage -> A) : M A :=
  fun w => Ok (f (vault w), w).

Definition sstore (f : Storage -> Storage) : M unit :=
  fun w => Ok (tt, mkWorld (f (vault w)) (ledger w) (events w)).

Definition emit (e : Event) : M unit :=
  fun w => Ok (tt, mkWorld (vault w) (ledger w) (events w ++ [e])).

(** Checked addition of Solidity 0.8. *)
Definition checked_add (a b : uint256) : M uint256 :=
  if a + b <? UINT256_MODULUS then ret (a + b) else revert Panic_overflow.

(** An external call to a token; a revert inside the token bubbles up. *)
Definition call_token (f : Ledger -> option (bool * Ledger)) : M bool :=
  fun w => match f (ledger w) with
           | Some (b, l') => Ok (b, mkWorld (vault w) l' (events w))
           | None => Err RcalleeReverted
           end.

(** A transaction: a reverting body leaves the world as it was. *)
Definition transact (m : M unit) (w : World) : Receipt * World :=
  match m w with
  | Ok (_, w') => (Success, w')
  | Err r => (Reverted r, w)
  end.

(** ** EIP-712 *)

Definition DOMAIN_TYPEHASH : bytes32 :=
  keccak256 (list_byte_of_string
    "EIP712Domain(string name,string version,uint256 chainId,address verifyingContract)").

Definition INTENT_TYPEHASH : bytes32 :=
  keccak256 (list_byte_of_string
    "Intent(address user,address merchant,address token,uint256 amount,uint256 deadline,bytes32 cartHash,uint256 nonce)").

Definition DOMAIN_SEPARATOR : bytes32 :=
  keccak256 (abi_encode
    [DOMAIN_TYPEHASH;
     keccak256 (list_byte_of_string "GroceryVault");
     keccak256 (list_byte_of_string "1");
     chainid;
     this]).

(** ** User configuration *)

Definition setPolicy (env : Env) (p : Policy) : M unit :=
  require ((perTxCap p <=? weeklyCap p) && (perTxCap p <=? monthlyCap p)) RcapsPerTx ;;
  sstore (set_policyOf (msg_sender env) p) ;;
  emit (PolicyUpdated (msg_sender env) p).

Definition setMerchantAllowed (env : Env) (mer : address) (allowed : bool) : M unit :=
  sstore (set_merchantAllowed (msg_sender env) mer allowed) ;;
  emit (MerchantAllowed (msg_sender env) mer allowed).

Definition setAgentAllowed (env : Env) (agent : address) (allowed : bool) : M unit :=
  sstore (set_agentAllowed (msg_sender env) agent allowed) ;;
  emit (AgentAllowed (msg_sender env) agent allowed).

(** ** Funds management *)

Definition deposit (env : Env) (tok : address) (amt : uint256) : M unit :=
  require (0 <? amt) Ramount0 ;;
  ok <- call_token (erc20_transferFrom tok this (msg_sender env) this amt) ;;
  require ok RtransferFromFailed ;;
  emit (Deposited (msg_sender env) tok amt).

Definition withdraw (env : Env) (tok : address) (amt : uint256) (to : address) : M unit :=
  require (negb (to =? 0)) Rto0 ;;
  require (0 <? amt) Ramount0 ;;
  ok <- call_token (erc20_transfer tok this to amt) ;;
  require ok RtransferFailed ;;
  emit (Withdrawn (msg_sender env) tok amt to).

(** ** Internal helpers *)

Definition with_weekStart (v : uint256) (w : SpendWindow) : SpendWindow :=
  mkSpendWindow v (weekSpent w) (monthStart w) (monthSpent w).
Definition with_weekSpent (v : uint256) (w : SpendWindow) : SpendWindow :=
  mkSpendWindow (weekStart w) v (monthStart w) (monthSpent w).
Definition with_monthStart (v : uint256) (w : SpendWindow) : SpendWindow :=
  mkSpendWindow (weekStart w) (weekSpent w) v (monthSpent w).
Definition with_monthSpent (v : uint256) (w : SpendWindow) : SpendWindow :=
  mkSpendWindow (weekStart w) (weekSpent w) (monthStart w) v.

(** Reads and writes through the storage pointer [spend[usr]]. *)
Definition w_load (usr : address) (field : SpendWindow -> uint256) : M uint256 :=
  sload (fun s => field (spend s !!! usr)).

Definition w_store (usr : address) (upd : SpendWindow -> SpendWindow) : M unit :=
  sstore (fun s => set_spend usr (upd (spend s !!! usr)) s).

Definition _rollWindowsIfNeeded (env : Env) (usr : address) : M unit :=
  ws <- w_load usr weekStart ;;
  if ws =? 0 then
    (* Initialize if first time *)
    w_store usr (with_weekStart (block_timestamp env)) ;;
    w_store usr (with_monthStart (block_timestamp env))
  else
    (* Rolling week = 7 days *)
    (ws <- w_load usr weekStart ;;
     wend <- checked_add ws SEVEN_DAYS ;;
     if wend <=? block_timestamp env then
       w_store usr (with_weekStart (block_timestamp env)) ;;
       w_store usr (with_weekSpent 0)
     else ret tt) ;;
    (* Rolling month = 30 days *)
    (ms <- w_load usr monthStart ;;
     mend <- checked_add ms THIRTY_DAYS ;;
     if mend <=? block_timestamp env then
       w_store usr (with_monthStart (block_timestamp env)) ;;
       w_store usr (with_monthSpent 0)
     else ret tt).

Definition _viewRolledWeek (env : Env) (weekStart weekSpent : uint256)
  : M (uint256 * uint256) :=
  if weekStart =? 0 then ret (0, 0)
  else
    wend <- checked_add weekStart SEVEN_DAYS ;;
    if wend <=? block_timestamp env then ret (block_timestamp env, 0)
    else ret (weekStart, weekSpent).

Definition _viewRolledMonth (env : Env) (monthStart monthSpent : uint256)
  : M (uint256 * uint256) :=
  if monthStart =? 0 then ret (0, 0)
  else
    mend <- checked_add monthStart THIRTY_DAYS ;;
    if mend <=? block_timestamp env then ret (block_timestamp env, 0)
    else ret (monthStart, monthSpent).

Definition _hashIntent (intent : Intent) : bytes32 :=
  let structHash :=
    keccak256 (abi_encode
      [INTENT_TYPEHASH;
       user intent;
       merchant intent;
       token intent;
       amount intent;
       deadline intent;
       cartHash intent;
       nonce intent]) in
  keccak256 ([x19; x01] ++ abi_word DOMAIN_SEPARATOR ++ abi_word structHash).

Definition _verifyUserSig (intent : Intent) (sig : bytes) : bool :=
  if negb (Nat.eqb (length sig) 65) then false
  else
    let digest := _hashIntent intent in
    let r := be_value (take 32 sig) in
    let s := be_value (take 32 (drop 32 sig)) in
    let v := Byte.to_N (nth 64 sig x00) in
    let recovered := ecrecover digest v r s in
    recovered =? user intent.

(** ** Core execution *)

Definition executeIntent (env : Env) (intent : Intent) (userSig : bytes) : M unit :=
  require (block_timestamp env <=? deadline intent) Rexpired ;;
  require (negb (user intent =? 0)) Ruser0 ;;
  require (0 <? amount intent) Ramount0 ;;

  p <- sload (fun s => policyOf s !!! user intent) ;;
  require (amount intent <=? perTxCap p) RperTxCap ;;

  allowed <- sload (fun s => merchantAllowed s !!! (user intent, merchant intent)) ;;
  require allowed RmerchantNotAllowed ;;

  (* Replay protection *)
  n <- sload (fun s => nonces s !!! user intent) ;;
  require (nonce intent =? n) RbadNonce ;;

  let intentId := _hashIntent intent in
  used <- sload (fun s => intentUsed s !!! intentId) ;;
  require (negb used) RintentUsed ;;
  sstore (set_intentUsed intentId true) ;;

  (* Authorization *)
  let callerIsUser := msg_sender env =? user intent in
  callerIsAgent <- sload (fun s => agentAllowed s !!! (user intent, msg_sender env)) ;;
  (if requireUserSig p then
     require (_verifyUserSig intent userSig) RsigRequired
   else
     if negb (callerIsUser || callerIsAgent) then
       (* if not user/agent, must have a valid user signature *)
       require (_verifyUserSig intent userSig) RnotAuthorized
     else
       (* user/agent path: signature optional *)
       if Nat.ltb 0 (length userSig) then
         require (_verifyUserSig intent userSig) RsigInvalid
       else ret tt) ;;

  (* Spend window enforcement *)
  _rollWindowsIfNeeded env (user intent) ;;

  wk <- w_load (user intent) weekSpent ;;
  wsum <- checked_add wk (amount intent) ;;
  require (wsum <=? weeklyCap p) RweeklyCap ;;
  mo <- w_load (user intent) monthSpent ;;
  msum <- checked_add mo (amount intent) ;;
  require (msum <=? monthlyCap p) RmonthlyCap ;;

  (* Effects *)
  wk <- w_load (user intent) weekSpent ;;
  wk' <- checked_add wk (amount intent) ;;
  w_store (user intent) (with_weekSpent wk') ;;
  mo <- w_load (user intent) monthSpent ;;
  mo' <- checked_add mo (amount intent) ;;
  w_store (user intent) (with_monthSpent mo') ;;
  n <- sload (fun s => nonces s !!! user intent) ;;
  n' <- checked_add n 1 ;;
  sstore (set_nonces (user intent) n') ;;

  (* Interaction *)
  ok <- call_token (erc20_transfer (token intent) this (merchant intent) (amount intent)) ;;
  require ok RtransferFailed ;;

  emit (IntentExecuted intentId (user intent) (merchant intent) (token intent) (amount intent)).

(** ** Views *)

Definition remainingWeekly (env : Env) (usr : address) : M uint256 :=
  p <- sload (fun s => policyOf s !!! usr) ;;
  w <- sload (fun s => spend s !!! usr) ;;
  rolled <- _viewRolledWeek env (weekStart w) (weekSpent w) ;;
  let spent := snd rolled in
  if weeklyCap p <=? spent then ret 0
  else ret (weeklyCap p - spent).

Definition remainingMonthly (env : Env) (usr : address) : M uint256 :=
  p <- sload (fun s => policyOf s !!! usr) ;;
  w <- sload (fun s => spend s !!! usr) ;;
  rolled <- _viewRolledMonth env (monthStart w) (monthSpent w) ;;
  let spent := snd rolled in
  if monthlyCap p <=? spent then ret 0
  else ret (monthlyCap p - spent).

(** ** Transactions and reachable worlds *)

Inductive Call :=
| CsetPolicy (p : Policy)
| CsetMerchantAllowed (mer : address) (allowed : bool)
| CsetAgentAllowed (agent : address) (allowed : bool)
| Cdeposit (tok : address) (amt : uint256)
| Cwithdraw (tok : address) (amt : uint256) (to : address)
| CexecuteIntent (intent : Intent) (userSig : bytes).

Definition dispatch (env : Env) (c : Call) : M unit :=
  match c with
  | CsetPolicy p => setPolicy env p
  | CsetMerchantAllowed mer allowed => setMerchantAllowed env mer allowed
  | CsetAgentAllowed agent allowed => setAgentAllowed env agent allowed
  | Cdeposit tok amt => deposit env tok amt
  | Cwithdraw tok amt to => withdraw env tok amt to
  | CexecuteIntent intent userSig => executeIntent env intent userSig
  end.

(** A block timestamp is a positive 64-bit Unix time. *)
Definition TIMESTAMP_BOUND : N := 2 ^ 64.
Definition valid_timestamp (t : uint256) : Prop := 0 < t < TIMESTAMP_BOUND.

(** One step of the chain as the vault sees it: a transaction sent to the
    vault, or any activity on the tokens in which the vault takes no part. *)
Inductive step : World -> World -> Prop :=
| step_call env c w :
    valid_timestamp (block_timestamp env) ->
    step w (snd (transact (dispatch env c) w))
| step_ledger w l :
    step w (mkWorld (vault w) l (events w)).

(** The world just after deployment. *)
Definition deployed (l : Ledger) : World := mkWorld empty_storage l [].

Definition reachable (w : World) : Prop := exists l, rtc step (deployed l) w.

(** The invariant of a stored spend window: it is either untouched (all
    zero) or both of its clocks hold a timestamp. *)
Definition window_ok (win : SpendWindow) : Prop :=
  win = mkSpendWindow 0 0 0 0 \/
  (valid_timestamp (weekStart win) /\ valid_timestamp (monthStart win)).

(** ** The specification's components, as the specification words them *)

(** Authorization Evaluator: the three-rule precedence. *)
Definition spec_authorized
  (requireSig callerIsOwner callerIsAgent sigSupplied sigValid : bool) : bool :=
  if requireSig then sigValid
  else if callerIsOwner || callerIsAgent then
    (if sigSupplied then sigValid else true)
  else sigValid.

(** Spend Window Accountant: [rollIfExpired(window, now)]. *)
Definition spec_rollIfExpired (now : uint256) (win : SpendWindow) : SpendWindow :=
  if weekStart win =? 0 then mkSpendWindow now 0 now 0
  else
    mkSpendWindow
      (if SEVEN_DAYS <=? now - weekStart win then now else weekStart win)
      (if SEVEN_DAYS <=? now - weekStart win then 0 else weekSpent win)
      (if THIRTY_DAYS <=? now - monthStart win then now else monthStart win)
      (if THIRTY_DAYS <=? now - monthStart win then 0 else monthSpent win).

(** The remainder of a cap: the cap minus what was spent, never below 0. *)
Definition spec_remaining (cap spent : uint256) : uint256 :=
  if cap <=? spent then 0 else cap - spent.

(** ** The phases of [executeIntent], for the proofs *)

(** The first check that fails in a list of checks. *)
Fixpoint first_failing (checks : list (bool * Revert)) : option Revert :=
  match checks with
  | [] => None
  | (true, _) :: rest => first_failing rest
  | (false, r) :: _ => Some r
  end.

(** The checks [executeIntent] makes before it authorizes, in its order. *)
Definition validation_checks (env : Env) (intent : Intent) (s : Storage)
  : list (bool * Revert) :=
  [ (block_timestamp env <=? deadline intent, Rexpired);
    (negb (user intent =? 0), Ruser0);
    (0 <? amount intent, Ramount0);
    (amount intent <=? perTxCap (policyOf s !!! user intent), RperTxCap);
    (merchantAllowed s !!! (user intent, merchant intent), RmerchantNotAllowed);
    (nonce intent =? nonces s !!! user intent, RbadNonce);
    (negb (intentUsed s !!! _hashIntent intent), RintentUsed) ].

(** The authorization block. *)
Definition authorization_checks (env : Env) (intent : Intent) (userSig : bytes)
  (s : Storage) : list (bool * Revert) :=
  let p := policyOf s !!! user intent in
  let privileged :=
    (msg_sender env =? user intent) || agentAllowed s !!! (user intent, msg_sender env) in
  if requireUserSig p then [(_verifyUserSig intent userSig, RsigRequired)]
  else if negb privileged then [(_verifyUserSig intent userSig, RnotAuthorized)]
  else if Nat.ltb 0 (length userSig) then [(_verifyUserSig intent userSig, RsigInvalid)]
  else [].

(** What [_rollWindowsIfNeeded] makes of a window. *)
Definition rolled (now : uint256) (win : SpendWindow) : Result SpendWindow :=
  if weekStart win =? 0 then Ok (with_monthStart now (with_weekStart now win))
  else if weekStart win + SEVEN_DAYS <? UINT256_MODULUS then
    let w1 :=
      if weekStart win + SEVEN_DAYS <=? now
      then with_weekSpent 0 (with_weekStart now win) else win in
    if monthStart w1 + THIRTY_DAYS <? UINT256_MODULUS then
      Ok (if monthStart w1 + THIRTY_DAYS <=? now
          then with_monthSpent 0 (with_monthStart now w1) else w1)
    else Err Panic_overflow
  else Err Panic_overflow.

(** What the cap checks and the two [+=] make of the rolled window. *)
Definition reserved (p : Policy) (amt : uint256) (win : SpendWindow)
  : Result SpendWindow :=
  if weekSpent win + amt <? UINT256_MODULUS then
    if weekSpent win + amt <=? weeklyCap p then
      if monthSpent win + amt <? UINT256_MODULUS then
        if monthSpent win + amt <=? monthlyCap p then
          Ok (with_monthSpent (monthSpent win + amt)
                (with_weekSpent (weekSpent win + amt) win))
        else Err RmonthlyCap
      else Err Panic_overflow
    else Err RweeklyCap
  else Err Panic_overflow.

(** The body of [executeIntent] from "Spend window enforcement" on. *)
Definition settle (env : Env) (intent : Intent) (p : Policy) : M unit :=
  _rollWindowsIfNeeded env (user intent) ;;
  wk <- w_load (user intent) weekSpent ;;
  wsum <- checked_add wk (amount intent) ;;
  require (wsum <=? weeklyCap p) RweeklyCap ;;
  mo <- w_load (user intent) monthSpent ;;
  msum <- checked_add mo (amount intent) ;;
  require (msum <=? monthlyCap p) RmonthlyCap ;;
  wk <- w_load (user intent) weekSpent ;;
  wk' <- checked_add wk (amount intent) ;;
  w_store (user intent) (with_weekSpent wk') ;;
  mo <- w_load (user intent) monthSpent ;;
  mo' <- checked_add mo (amount intent) ;;
  w_store (user intent) (with_monthSpent mo') ;;
  n <- sload (fun s => nonces s !!! user intent) ;;
  n' <- checked_add n 1 ;;
  sstore (set_nonces (user intent) n') ;;
  ok <- call_token (erc20_transfer (token intent) this (merchant intent) (amount intent)) ;;
  require ok RtransferFailed ;;
  emit (IntentExecuted (_hashIntent intent) (user intent) (merchant intent)
          (token intent) (amount intent)).

(** The world a successful [executeIntent] leaves. *)
Definition committed (intent : Intent) (win : SpendWindow) (l : Ledger) (w : World)
  : World :=
  mkWorld
    (set_nonces (user intent) (nonces (vault w) !!! user intent + 1)
       (set_spend (user intent) win
          (set_intentUsed (_hashIntent intent) true (vault w))))
    l
    (events w ++ [IntentExecuted (_hashIntent intent) (user intent)
                    (merchant intent) (token intent) (amount intent)]).

(** The outcome of the body from "Spend window enforcement" on. *)
Definition settled (env : Env) (intent : Intent) (w : World) : Result World :=
  let s := vault w in
  match rolled (block_timestamp env) (spend s !!! user intent) with
  | Err r => Err r
  | Ok win1 =>
    match reserved (policyOf s !!! user intent) (amount intent) win1 with
    | Err r => Err r
    | Ok win2 =>
      if nonces s !!! user intent + 1 <? UINT256_MODULUS then
        match erc20_transfer (token intent) this (merchant intent)
                (amount intent) (ledger w) with
        | None => Err RcalleeReverted
        | Some (false, _) => Err RtransferFailed
        | Some (true, l) => Ok (committed intent win2 l w)
        end
      else Err Panic_overflow
    end
  end.

(** The outcome of [executeIntent], phase by phase. *)
Definition outcome (env : Env) (intent : Intent) (userSig : bytes) (w : World)
  : Result World :=
  match first_failing (validation_checks env intent (vault w)) with
  | Some r => Err r
  | None =>
    match first_failing (authorization_checks env intent userSig (vault w)) with
    | Some r => Err r
    | None => settled env intent w
    end
  end.

(** Steps 1 to 6 of the validation order all pass. *)
Definition validated (env : Env) (intent : Intent) (s : Storage) : Prop :=
  block_timestamp env <= deadline intent /\
  user intent <> 0 /\
  0 < amount intent /\
  amount intent <= perTxCap (policyOf s !!! user intent) /\
  merchantAllowed s !!! (user intent, merchant intent) = true /\
  nonce intent = nonces s !!! user intent /\
  intentUsed s !!! _hashIntent intent = false.

(** The decision of the Authorization Evaluator on a call. *)
Definition authorized (env : Env) (intent : Intent) (userSig : bytes) (s : Storage)
  : bool :=
  spec_authorized
    (requireUserSig (policyOf s !!! user intent))
    (msg_sender env =? user intent)
    (agentAllowed s !!! (user intent, msg_sender env))
    (Nat.ltb 0 (length userSig))
    (_verifyUserSig intent userSig).

(** The signature fields, as the assembly block reads them from calldata. *)
Definition sig_r (sig : bytes) : bytes32 := be_value (take 32 sig).
Definition sig_s (sig : bytes) : bytes32 := be_value (take 32 (drop 32 sig)).
Definition sig_v (sig : bytes) : N := Byte.to_N (nth 64 sig x00).

(** A receipt that reports a revert of kind [Unauthorized]. *)
Definition unauthorized (rc : Receipt) : Prop :=
  exists r, rc = Reverted r /\ error_kind r = Some Unauthorized.

(** ** Further notions, for the properties of the whole contract *)

(** The sanity condition [setPolicy] requires of a policy. *)
Definition policy_ok (p : Policy) : Prop :=
  perTxCap p <= weeklyCap p /\ perTxCap p <= monthlyCap p.

(** The number of [IntentExecuted] events of an account in a log. *)
Fixpoint executed (usr : address) (evs : list Event) : N :=
  match evs with
  | [] => 0
  | IntentExecuted _ u _ _ _ :: rest =>
      (if u =? usr then 1 else 0) + executed usr rest
  | _ :: rest => executed usr rest
  end.

(** The words [_hashIntent] encodes after the type hash, and the bytes it
    hashes into the struct hash. *)
Definition intent_fields (intent : Intent) : list N :=
  [user intent; merchant intent; token intent; amount intent;
   deadline intent; cartHash intent; nonce intent].

Definition struct_encoding (intent : Intent) : bytes :=
  abi_encode (INTENT_TYPEHASH :: intent_fields intent).

(** Every field of the intent fits a 32-byte word. *)
Definition in_range (intent : Intent) : Prop :=
  Forall (fun x => x < UINT256_MODULUS) (intent_fields intent).

(** The bytes the constructor hashes into [DOMAIN_SEPARATOR]. *)
Definition domain_encoding : bytes :=
  abi_encode
    [DOMAIN_TYPEHASH;
     keccak256 (list_byte_of_string "GroceryVault");
     keccak256 (list_byte_of_string "1");
     chainid;
     this].

(** A signature as wallets serialize it: [r], [s], then the byte [v]. *)
Definition signature_bytes (r s : bytes32) (v : N) : bytes :=
  abi_word r ++ abi_word s ++ [byte_of v].

End Vault.

(** ** The agent backend: [executePurchaseIntent]

    The backend reads the account's nonce from the vault, builds an intent
    that expires an hour after its own clock, and sends it with an empty
    signature from its signer.  [amountUnits] is the amount in token units,
    as [ethers.parseUnits(amount, 6)] returns it; [deadlineMs] and [cartMs]
    are the two readings of [Date.now()], in milliseconds.  The call is
    taken to be mined in the world the nonce was read from. *)

Section Backend.

Context {chain : Chain}.

Record BackendConfig := mkBackendConfig {
  signer : option address;   (* [null] in read-only mode *)
  USDC_ADDRESS : address
}.

Definition purchase_intent (cfg : BackendConfig) (userAddress merchant : address)
  (amountUnits : uint256) (deadlineMs cartMs : N) (nonce : uint256) : Intent :=
  mkIntent userAddress merchant (USDC_ADDRESS cfg) amountUnits
    (deadlineMs / 1000 + 3600)
    (keccak256 (list_byte_of_string
       ("cart-" ++ NilZero.string_of_uint (N.to_uint cartMs))))
    nonce.

(** The result is [success: true] when the transaction is mined without
    reverting; otherwise [success: false] with the error: the revert of
    the transaction, or, without a signer, the failure to send it. *)
Inductive Purchase :=
| Purchased
| Failed (reason : option Revert).

Definition executePurchaseIntent (cfg : BackendConfig) (blockTime : uint256)
  (deadlineMs cartMs : N) (userAddress merchant : address)
  (amountUnits : uint256) (w : World) : Purchase * World :=
  let nonce := nonces (vault w) !!! userAddress in
  let intent :=
    purchase_intent cfg userAddress merchant amountUnits deadlineMs cartMs nonce in
  match signer cfg with
  | None => (Failed None, w)
  | Some sender =>
    match transact (executeIntent (mkEnv sender blockTime) intent []) w with
    | (Success, w') => (Purchased, w')
    | (Reverted r, w') => (Failed (Some r), w')
    end
  end.

End Backend.

(** ** The recommendation engine: [generateGroceryRecommendations]

    JavaScript numbers are IEEE doubles; the engine is modelled over any
    number type with the operations it uses, [lit] giving the value of a
    numeric literal. *)

Module Recommender.

Class JsNumber := {
  Num : Type;
  lit : string -> Num;
  add : Num -> Num -> Num;
  sub : Num -> Num -> Num;
  mul : Num -> Num -> Num;
  div : Num -> Num -> Num;
  floor : Num -> Num;
  ceil : Num -> Num;
  leb : Num -> Num -> bool;
  truthy : Num -> bool
}.

Section Engine.

Context {num : JsNumber}.

Record Provider := mkProvider {
  name : string;
  categories : list string;
  avgPrice : Num
}.

Definition foodProviders : list (string * Provider) :=
  [ ("0xwholefoods",
     mkProvider "Whole Foods" ["produce"; "dairy"; "meat"; "bakery"] (lit "1.5"));
    ("0xtradedjoes",
     mkProvider "Trader Joe's" ["frozen"; "organic"; "snacks"] (lit "1.2"));
    ("0xcostco",
     mkProvider "Costco" ["bulk"; "meat"; "produce"] (lit "0.9")) ]%string.

Record Recommendation := mkRecommendation {
  item : string;
  price : Num;
  nutrition : string;
  provider : string;
  qty : Num;
  reason : string
}.

(** A recommendation after the household multiplier was applied. *)
Record Adjusted := mkAdjusted {
  rec : Recommendation;
  adjustedQty : Num;
  totalPrice : Num
}.

Record Preferences := mkPreferences {
  diet : option string;
  budget : option Num;
  householdSize : option Num
}.

Record Summary := mkSummary {
  totalCost : Num;
  withinBudget : bool;
  savingsFromBudget : Num;
  estimatedMeals : Num
}.

Record Recommendations := mkRecommendations {
  effective_diet : string;
  recommendations : list Adjusted;
  summary : Summary
}.

(** [s || fallback] on a string that may be undefined. *)
Definition or_string (s : option string) (fallback : string) : string :=
  match s with
  | Some s => if String.eqb s "" then fallback else s
  | None => fallback
  end.

(** [x || fallback] on a number that may be undefined. *)
Definition or_num (x : option Num) (fallback : Num) : Num :=
  match x with
  | Some x => if truthy x then x else fallback
  | None => fallback
  end.

Definition vegan_items (budget : Num) : list Recommendation :=
  [ mkRecommendation "Organic Lentils (1lb)" (lit "2.5") "20g protein, high fiber"
      "Whole Foods" (floor (div budget (lit "2.5"))) "High protein plant-based staple";
    mkRecommendation "Tofu Block" (lit "3.99") "15g protein per serving"
      "Trader Joe's" (lit "2") "Versatile protein source" ]%string.

Definition keto_items : list Recommendation :=
  [ mkRecommendation "Grass-fed Beef (2lb)" (lit "12.99") "26g protein per serving"
      "Whole Foods" (lit "1") "High quality protein";
    mkRecommendation "Organic Eggs (dozen)" (lit "5.99") "6g protein per egg"
      "Costco" (lit "2") "Keto-friendly staple" ]%string.

Definition balanced_items : list Recommendation :=
  [ mkRecommendation "Chicken Breast (2lb)" (lit "7.99") "35g protein"
      "Costco" (lit "1") "Lean protein source";
    mkRecommendation "Mixed Vegetables Bag" (lit "4.5") "Rich in vitamins"
      "Trader Joe's" (lit "2") "Daily vegetable intake";
    mkRecommendation "Brown Rice (2lb)" (lit "3.0") "Whole grain carbs"
      "Trader Joe's" (lit "1") "Healthy carbs" ]%string.

Definition generateGroceryRecommendations (preferences : Preferences)
  : Recommendations :=
  let diet := or_string (diet preferences) "balanced" in
  let budget := or_num (budget preferences) (lit "100") in
  let household := or_num (householdSize preferences) (lit "1") in
  let recs := [] in
  let recs := recs ++ (if String.eqb diet "vegan" then vegan_items budget else []) in
  let recs := recs ++ (if String.eqb diet "keto" then keto_items else []) in
  let recs :=
    recs ++ (if String.eqb diet "balanced" || Nat.eqb (length recs) 0
             then balanced_items else []) in
  (* Add household size multiplier *)
  let recs :=
    map (fun r =>
           let adjusted := mul (qty r) household in
           mkAdjusted r adjusted (mul (price r) adjusted)) recs in
  (* Calculate totals *)
  let total := fold_left (fun sum r => add sum (totalPrice r)) recs (lit "0") in
  mkRecommendations diet recs
    (mkSummary total (leb total budget) (sub budget total)
       (ceil (mul total (lit "3")))).

(** The names under which the provider table lists its providers. *)
Definition provider_names : list string :=
  map (fun kv => name (snd kv)) foodProviders.

End Engine.

End Recommender.

(** ** Scenarios on the reference chain *)

Module Demo.

#[local] Existing Instance Ref.chain.

Definition owner : address := 7.
Definition agent : address := 8.
Definition merchant_a : address := 9.
Definition stranger : address := 11.
Definition usdc : address := 5.

(** The scenario of the specification: caps 100 a week, 300 a month and
    50 a transaction, no signature required, one allowlisted merchant and
    one allowlisted agent, and a vault that holds 1000 tokens. *)
Definition policy_a : Policy := mkPolicy 300 100 50 false.

Definition funded : Ref.Balances := {[ (usdc, Ref.vault_address) := 1000 ]}.

Definition at_time (sender : address) (t : uint256) : Env := mkEnv sender t.

Definition w0 : World := deployed funded.
Definition w1 : World :=
  snd (transact (dispatch (at_time owner 100) (CsetPolicy policy_a)) w0).
Definition w2 : World :=
  snd (transact (dispatch (at_time owner 100) (CsetMerchantAllowed merchant_a true)) w1).
Definition w3 : World :=
  snd (transact (dispatch (at_time owner 100) (CsetAgentAllowed agent true)) w2).

Definition intent_a : Intent := mkIntent owner merchant_a usdc 40 1000000 0 0.

(** The agent executes [intent_a] without a signature. *)
Definition w4 : World :=
  snd (transact (dispatch (at_time agent 200) (CexecuteIntent intent_a [])) w3).

(** Twenty-five days later the agent spends 10 more: the week restarts. *)
Definition intent_b : Intent := mkIntent owner merchant_a usdc 10 3000000 0 1.
Definition day25 : uint256 := 200 + 25 * 86400.
Definition day30 : uint256 := 200 + 30 * 86400.
Definition w5 : World :=
  snd (transact (dispatch (at_time agent day25) (CexecuteIntent intent_b [])) w4).

(** The same configuration with an empty vault. *)
Definition unfunded : World := mkWorld (vault w3) ∅ (events w3).

(** An intent with a nonce the account has not reached. *)
Definition intent_stale : Intent := mkIntent owner merchant_a usdc 40 1000000 0 5.

(** A policy whose per-transaction cap exceeds its weekly cap. *)
Definition policy_bad : Policy := mkPolicy 300 100 150 false.

(** An account whose caps are the largest [uint256]: it spends the whole
    balance of the vault at once, the merchant hands one token back, and a
    second intent asks for that token. *)
Definition MAX_UINT256 : uint256 := UINT256_MODULUS - 1.
Definition policy_max : Policy := mkPolicy MAX_UINT256 MAX_UINT256 MAX_UINT256 false.
Definition rich : Ref.Balances := {[ (usdc, Ref.vault_address) := MAX_UINT256 ]}.
Definition refunded : Ref.Balances :=
  <[ (usdc, Ref.vault_address) := 1 ]> {[ (usdc, merchant_a) := MAX_UINT256 - 1 ]}.

Definition intent_all : Intent := mkIntent owner merchant_a usdc MAX_UINT256 1000000 0 0.
Definition intent_one : Intent := mkIntent owner merchant_a usdc 1 1000000 0 1.

Definition v0 : World := deployed rich.
Definition v1 : World :=
  snd (transact (dispatch (at_time owner 100) (CsetPolicy policy_max)) v0).
Definition v2 : World :=
  snd (transact (dispatch (at_time owner 100) (CsetMerchantAllowed merchant_a true)) v1).
Definition v3 : World :=
  snd (transact (dispatch (at_time owner 200) (CexecuteIntent intent_all [])) v2).
Definition v4 : World := mkWorld (vault v3) refunded (events v3).

(** The backend of the scenario: the agent is its signer. *)
Definition backend : BackendConfig := mkBackendConfig (Some agent) usdc.

(** A follow-up intent over the per-transaction cap. *)
Definition intent_big : Intent := mkIntent owner merchant_a usdc 70 1000000 0 1.

(** An intent on behalf of an account that set no policy. *)
Definition intent_stranger : Intent := mkIntent stranger merchant_a usdc 40 1000000 0 0.

(** Numbers in hundredths, for the recommendation engine. *)
Fixpoint hundredths_of (s : string) (acc : N) (frac : option nat) : N :=
  match s with
  | EmptyString =>
      match frac with
      | None => acc * 100
      | Some 1%nat => acc * 10
      | _ => acc
      end
  | String c rest =>
      if Ascii.eqb c "."%char then hundredths_of rest acc (Some 0%nat)
      else
        hundredths_of rest (acc * 10 + (Ascii.N_of_ascii c - 48))
          (option_map S frac)
  end.

Definition hundredths : Recommender.JsNumber := {|
  Recommender.Num := N;
  Recommender.lit := fun s => hundredths_of s 0 None;
  Recommender.add := N.add;
  Recommender.sub := N.sub;
  Recommender.mul := fun a b => a * b / 100;
  Recommender.div := fun a b => a * 100 / b;
  Recommender.floor := fun a => a / 100 * 100;
  Recommender.ceil := fun a => (a + 99) / 100 * 100;
  Recommender.leb := N.leb;
  Recommender.truthy := fun a => negb (a =? 0)
|}.

Definition paleo : @Recommender.Preferences hundredths :=
  @Recommender.mkPreferences hundredths (Some "paleo"%string) (Some 5000) None.

End Demo.

(** * Proofs *)

Section Proofs.

Context {chain : Chain}.


(** ** Storage *)

Lemma spend_set_spend u win s : spend (set_spend u win s) !!! u = win.
Proof. unfold set_spend; cbn. apply lookup_total_insert_eq. Qed.

Lemma set_spend_set_spend u win win' s :
  set_spend u win (set_spend u win' s) = set_spend u win s.
Proof. unfold set_spend; cbn. by rewrite insert_insert_eq. Qed.

(** A window whose week clock runs was written before: storing it back
    changes nothing. *)
Lemma set_spend_same u s :
  weekStart (spend s !!! u) <> 0 -> set_spend u (spend s !!! u) s = s.
Proof.
  intros Hws. destruct s as [po ma aa sp no iu]; unfold set_spend; cbn in *.
  f_equal. rewrite lookup_total_alt in *.
  destruct (sp !! u) as [win|] eqn:Hu; cbn in *.
  - by apply insert_id.
  - congruence.
Qed.

(** ** Running the monad *)

Lemma run_bind {A B} (m : M A) (k : A -> M B) w :
  bind m k w = match m w with Ok (a, w') => k a w' | Err r => Err r end.
Proof. reflexivity. Qed.

Lemma run_assoc {A B C} (m : M A) (k1 : A -> M B) (k2 : B -> M C) w :
  bind (bind m k1) k2 w = bind m (fun a => bind (k1 a) k2) w.
Proof. unfold bind. by destruct (m w) as [[a w']|r]. Qed.

Lemma run_ret {A B} (a : A) (k : A -> M B) w : bind (ret a) k w = k a w.
Proof. reflexivity. Qed.

Lemma run_require c r {B} (k : unit -> M B) w :
  bind (require c r) k w = if c then k tt w else Err r.
Proof. by destruct c. Qed.

Lemma run_checked_add a b {B} (k : uint256 -> M B) w :
  bind (checked_add a b) k w =
  if a + b <? UINT256_MODULUS then k (a + b) w else Err Panic_overflow.
Proof. unfold bind, checked_add. by destruct (a + b <? UINT256_MODULUS). Qed.

Lemma run_sload {A B} (f : Storage -> A) (k : A -> M B) w :
  bind (sload f) k w = k (f (vault w)) w.
Proof. reflexivity. Qed.

Lemma run_sstore f {B} (k : unit -> M B) w :
  bind (sstore f) k w = k tt (mkWorld (f (vault w)) (ledger w) (events w)).
Proof. reflexivity. Qed.

Lemma run_w_load usr field {B} (k : uint256 -> M B) w :
  bind (w_load usr field) k w = k (field (spend (vault w) !!! usr)) w.
Proof. reflexivity. Qed.

Lemma run_w_store usr upd {B} (k : unit -> M B) w :
  bind (w_store usr upd) k w =
  k tt (mkWorld (set_spend usr (upd (spend (vault w) !!! usr)) (vault w))
          (ledger w) (events w)).
Proof. reflexivity. Qed.

Lemma run_w_store_last usr upd w :
  w_store usr upd w =
  Ok (tt, mkWorld (set_spend usr (upd (spend (vault w) !!! usr)) (vault w))
            (ledger w) (events w)).
Proof. reflexivity. Qed.

Lemma run_call_token f {B} (k : bool -> M B) w :
  bind (call_token f) k w =
  match f (ledger w) with
  | Some (b, l) => k b (mkWorld (vault w) l (events w))
  | None => Err RcalleeReverted
  end.
Proof. unfold bind, call_token. by destruct (f (ledger w)) as [[b l]|]. Qed.

Lemma run_emit_last e w :
  emit e w = Ok (tt, mkWorld (vault w) (ledger w) (events w ++ [e])).
Proof. reflexivity. Qed.

Lemma run_emit e {B} (k : unit -> M B) w :
  bind (emit e) k w = k tt (mkWorld (vault w) (ledger w) (events w ++ [e])).
Proof. reflexivity. Qed.

Ltac run :=
  repeat (first
    [ rewrite run_assoc | rewrite run_ret | rewrite run_require
    | rewrite run_checked_add | rewrite run_sload | rewrite run_sstore
    | rewrite run_w_load | rewrite run_w_store | rewrite run_call_token
    | rewrite run_emit | rewrite run_w_store_last | rewrite run_emit_last
    | rewrite spend_set_spend | rewrite set_spend_set_spend ];
    cbn [vault ledger events]).

Lemma run_rollWindows env usr w :
  _rollWindowsIfNeeded env usr w =
  match rolled (block_timestamp env) (spend (vault w) !!! usr) with
  | Ok win => Ok (tt, mkWorld (set_spend usr win (vault w)) (ledger w) (events w))
  | Err r => Err r
  end.
Proof.
  destruct w as [s l ev]. unfold _rollWindowsIfNeeded, rolled.
  set (now := block_timestamp env). cbn [vault ledger events].
  rewrite run_w_load; cbn [vault].
  destruct (weekStart (spend s !!! usr) =? 0) eqn:Hws0.
  { run. reflexivity. }
  apply N.eqb_neq in Hws0. run.
  destruct (weekStart (spend s !!! usr) + SEVEN_DAYS <? UINT256_MODULUS);
    [|reflexivity].
  destruct (weekStart (spend s !!! usr) + SEVEN_DAYS <=? now); run.
  - cbn [with_weekSpent with_weekStart monthStart].
    destruct (monthStart (spend s !!! usr) + THIRTY_DAYS <? UINT256_MODULUS);
      [|reflexivity].
    destruct (monthStart (spend s !!! usr) + THIRTY_DAYS <=? now); run; reflexivity.
  - destruct (monthStart (spend s !!! usr) + THIRTY_DAYS <? UINT256_MODULUS);
      [|reflexivity].
    destruct (monthStart (spend s !!! usr) + THIRTY_DAYS <=? now); run.
    + reflexivity.
    + unfold ret. by rewrite set_spend_same.
Qed.

Lemma nonces_set_spend u win s : nonces (set_spend u win s) = nonces s.
Proof. reflexivity. Qed.

Lemma spend_set_intentUsed h b s : spend (set_intentUsed h b s) = spend s.
Proof. reflexivity. Qed.

Lemma nonces_set_intentUsed h b s : nonces (set_intentUsed h b s) = nonces s.
Proof. reflexivity. Qed.

Lemma run_settle env intent p w :
  settle env intent p w =
  match rolled (block_timestamp env) (spend (vault w) !!! user intent) with
  | Err r => Err r
  | Ok win1 =>
    match reserved p (amount intent) win1 with
    | Err r => Err r
    | Ok win2 =>
      if nonces (vault w) !!! user intent + 1 <? UINT256_MODULUS then
        match erc20_transfer (token intent) this (merchant intent)
                (amount intent) (ledger w) with
        | None => Err RcalleeReverted
        | Some (false, _) => Err RtransferFailed
        | Some (true, l) =>
          Ok (tt,
              mkWorld
                (set_nonces (user intent) (nonces (vault w) !!! user intent + 1)
                   (set_spend (user intent) win2 (vault w)))
                l
                (events w ++ [IntentExecuted (_hashIntent intent) (user intent)
                                (merchant intent) (token intent) (amount intent)]))
        end
      else Err Panic_overflow
    end
  end.
Proof.
  destruct w as [s l ev]. unfold settle. rewrite run_bind, run_rollWindows.
  cbn [vault ledger events].
  destruct (rolled (block_timestamp env) (spend s !!! user intent)) as [win1|r];
    [|reflexivity].
  unfold reserved. run.
  cbn [with_weekSpent monthSpent]. rewrite !nonces_set_spend.
  destruct (weekSpent win1 + amount intent <? UINT256_MODULUS); [|reflexivity].
  destruct (weekSpent win1 + amount intent <=? weeklyCap p); [|reflexivity].
  destruct (monthSpent win1 + amount intent <? UINT256_MODULUS); [|reflexivity].
  destruct (monthSpent win1 + amount intent <=? monthlyCap p); [|reflexivity].
  destruct (nonces s !!! user intent + 1 <? UINT256_MODULUS); [|reflexivity].
  destruct (erc20_transfer (token intent) this (merchant intent)
              (amount intent) l) as [[[] l']|]; run; reflexivity.
Qed.

(** [executeIntent] computes [outcome]. *)
Lemma run_executeIntent env intent userSig w :
  executeIntent env intent userSig w =
  match outcome env intent userSig w with
  | Ok w' => Ok (tt, w')
  | Err r => Err r
  end.
Proof.
  destruct w as [s l ev]. unfold executeIntent, outcome, settled, validation_checks.
  cbn [vault ledger events first_failing]. run.
  destruct (block_timestamp env <=? deadline intent); [|reflexivity].
  destruct (user intent =? 0); [reflexivity|]. cbn [negb].
  destruct (0 <? amount intent); [|reflexivity].
  destruct (amount intent <=? perTxCap (policyOf s !!! user intent)); [|reflexivity].
  destruct (merchantAllowed s !!! (user intent, merchant intent)); [|reflexivity].
  destruct (nonce intent =? nonces s !!! user intent); [|reflexivity].
  destruct (intentUsed s !!! _hashIntent intent); [reflexivity|]. cbn [negb].
  change (agentAllowed (set_intentUsed (_hashIntent intent) true s))
    with (agentAllowed s).
  set (w' := mkWorld (set_intentUsed (_hashIntent intent) true s) l ev).
  set (p := policyOf s !!! user intent).
  assert (Htail : settle env intent p w' =
    match
      match rolled (block_timestamp env) (spend s !!! user intent) with
      | Err r => Err r
      | Ok win1 =>
        match reserved p (amount intent) win1 with
        | Err r => Err r
        | Ok win2 =>
          if nonces s !!! user intent + 1 <? UINT256_MODULUS then
            match erc20_transfer (token intent) this (merchant intent)
                    (amount intent) l with
            | None => Err RcalleeReverted
            | Some (false, _) => Err RtransferFailed
            | Some (true, l0) => Ok (committed intent win2 l0 (mkWorld s l ev))
            end
          else Err Panic_overflow
        end
      end
    with
    | Ok w0 => Ok (tt, w0)
    | Err r => Err r
    end).
  { rewrite run_settle. subst w'. cbn [vault ledger events].
    rewrite spend_set_intentUsed, nonces_set_intentUsed.
    destruct (rolled _ _) as [win1|]; [|reflexivity].
    destruct (reserved _ _ _) as [win2|]; [|reflexivity].
    destruct (_ <? UINT256_MODULUS); [|reflexivity].
    destruct (erc20_transfer _ _ _ _ _) as [[[] l0]|]; reflexivity. }
  unfold authorization_checks. fold p.
  destruct (requireUserSig p).
  { cbn [first_failing]. run.
    destruct (_verifyUserSig intent userSig); [|reflexivity]. exact Htail. }
  destruct ((msg_sender env =? user intent)
            || agentAllowed s !!! (user intent, msg_sender env)); cbn [negb].
  - destruct (Nat.ltb 0 (length userSig)); cbn [first_failing]; run.
    + destruct (_verifyUserSig intent userSig); [|reflexivity]. exact Htail.
    + exact Htail.
  - cbn [first_failing]. run.
    destruct (_verifyUserSig intent userSig); [|reflexivity]. exact Htail.
Qed.

Lemma transact_success m w :
  fst (transact m w) = Success -> transact m w = (Success, snd (transact m w)).
Proof. destruct (transact m w); cbn; congruence. Qed.

(** A transaction of [executeIntent], by its outcome. *)
Lemma transact_executeIntent env intent userSig w :
  transact (executeIntent env intent userSig) w =
  match outcome env intent userSig w with
  | Ok w' => (Success, w')
  | Err r => (Reverted r, w)
  end.
Proof.
  unfold transact. rewrite run_executeIntent.
  by destruct (outcome env intent userSig w).
Qed.

(** ** Validation and authorization *)

Lemma validated_checks env intent s :
  validated env intent s <->
  first_failing (validation_checks env intent s) = None.
Proof.
  unfold validated, validation_checks; cbn [first_failing].
  destruct (block_timestamp env <=? deadline intent) eqn:H1;
    [apply N.leb_le in H1 | apply N.leb_gt in H1; split; [lia | discriminate]].
  destruct (user intent =? 0) eqn:H2;
    [apply N.eqb_eq in H2; split; [tauto | discriminate] | apply N.eqb_neq in H2].
  cbn [negb].
  destruct (0 <? amount intent) eqn:H3;
    [apply N.ltb_lt in H3 | apply N.ltb_ge in H3; split; [lia | discriminate]].
  destruct (amount intent <=? perTxCap (policyOf s !!! user intent)) eqn:H4;
    [apply N.leb_le in H4 | apply N.leb_gt in H4; split; [lia | discriminate]].
  destruct (merchantAllowed s !!! (user intent, merchant intent));
    [| split; [intros (_ & _ & _ & _ & ? & _); discriminate | discriminate]].
  destruct (nonce intent =? nonces s !!! user intent) eqn:H6;
    [apply N.eqb_eq in H6 | apply N.eqb_neq in H6; split; [tauto | discriminate]].
  destruct (intentUsed s !!! _hashIntent intent); cbn [negb].
  - split; [intros (_ & _ & _ & _ & _ & _ & ?); discriminate | discriminate].
  - tauto.
Qed.

(** The authorization block fails exactly where the Authorization
    Evaluator rejects, and only with an [Unauthorized] revert. *)
Lemma authorization_checks_spec env intent userSig s :
  match first_failing (authorization_checks env intent userSig s) with
  | Some r => authorized env intent userSig s = false /\
              error_kind r = Some Unauthorized
  | None => authorized env intent userSig s = true
  end.
Proof.
  unfold authorization_checks, authorized, spec_authorized.
  cbv zeta.
  destruct (requireUserSig (policyOf s !!! user intent)),
    (msg_sender env =? user intent),
    (agentAllowed s !!! (user intent, msg_sender env)),
    (Nat.ltb 0 (length userSig)),
    (_verifyUserSig intent userSig); cbn; auto.
Qed.

(** The reverts the body can raise once the caller is authorized. *)
Lemma settled_errors env intent w r :
  settled env intent w = Err r ->
  r = Panic_overflow \/ r = RweeklyCap \/ r = RmonthlyCap \/
  r = RtransferFailed \/ r = RcalleeReverted.
Proof.
  unfold settled, rolled, reserved. cbv zeta.
  repeat match goal with
         | |- context [if ?c then _ else _] => destruct c
         | |- context [match ?x with Some _ => _ | None => _ end] =>
             destruct x as [[[] ?]|]
         end; cbn; intros Hr; try discriminate; injection Hr as <-; tauto.
Qed.

(** The decision table of the Authorization Evaluator, rule by rule. *)
Lemma spec_authorized_rules requireSig owner agent supplied valid :
  (requireSig = true ->
     spec_authorized requireSig owner agent supplied valid = valid) /\
  (requireSig = false -> owner || agent = true -> supplied = false ->
     spec_authorized requireSig owner agent supplied valid = true) /\
  (requireSig = false -> owner || agent = true -> supplied = true ->
     spec_authorized requireSig owner agent supplied valid = valid) /\
  (requireSig = false -> owner || agent = false ->
     spec_authorized requireSig owner agent supplied valid = valid).
Proof.
  unfold spec_authorized.
  repeat split; intros; subst;
    repeat match goal with H : _ = _ |- _ => rewrite H end; reflexivity.
Qed.

(** Past validation, the receipt is [Unauthorized] exactly when the
    Authorization Evaluator rejects. *)
Lemma unauthorized_iff env intent userSig w :
  validated env intent (vault w) ->
  unauthorized (fst (transact (executeIntent env intent userSig) w)) <->
  authorized env intent userSig (vault w) = false.
Proof.
  intros Hval. apply validated_checks in Hval as Hchk.
  pose proof (authorization_checks_spec env intent userSig (vault w)) as Hauth.
  rewrite transact_executeIntent. unfold outcome. rewrite Hchk.
  destruct (first_failing (authorization_checks env intent userSig (vault w)))
    as [r|] eqn:Hf.
  - destruct Hauth as [Hrej Hkind]. split; [done|]. intros _. by exists r.
  - split; [|congruence]. intros (r & Hr & Hk).
    destruct (settled env intent w) as [w'|r'] eqn:Hs; [discriminate|].
    injection Hr as ->. apply settled_errors in Hs.
    destruct Hs as [-> | [-> | [-> | [-> | ->]]]]; discriminate.
Qed.

(** C1. Once the checks that precede it pass, [executeIntent] reverts as
    [Unauthorized] exactly when the three-rule precedence rejects the
    caller and signature: (1) with [requireUserSig], exactly when the
    signature does not verify, whoever calls; (2) otherwise, for the owner
    or an allowlisted agent, never when no signature is supplied, and
    exactly when a supplied signature does not verify; (3) otherwise,
    exactly when the signature does not verify.  A rejected call leaves
    the world untouched, and an accepted call has the same result for
    every caller and signature the precedence accepts. *)
Theorem executeIntent_authorization env intent userSig w :
  validated env intent (vault w) ->
  let p := policyOf (vault w) !!! user intent in
  let privileged :=
    (msg_sender env =? user intent)
    || agentAllowed (vault w) !!! (user intent, msg_sender env) in
  let valid := _verifyUserSig intent userSig in
  let rejected := unauthorized (fst (transact (executeIntent env intent userSig) w)) in
  (rejected <-> authorized env intent userSig (vault w) = false) /\
  (requireUserSig p = true -> (rejected <-> valid = false)) /\
  (requireUserSig p = false -> privileged = true -> userSig = [] -> ~ rejected) /\
  (requireUserSig p = false -> privileged = true -> userSig <> [] ->
     (rejected <-> valid = false)) /\
  (requireUserSig p = false -> privileged = false -> (rejected <-> valid = false)) /\
  (rejected -> snd (transact (executeIntent env intent userSig) w) = w) /\
  (~ rejected ->
   forall env' userSig',
     block_timestamp env' = block_timestamp env ->
     authorized env' intent userSig' (vault w) = true ->
     transact (executeIntent env' intent userSig') w =
     transact (executeIntent env intent userSig) w).
Proof.
  intros Hval p privileged valid rejected.
  pose proof (unauthorized_iff env intent userSig w Hval) as Hiff.
  fold rejected in Hiff.
  unfold authorized, spec_authorized in Hiff. fold p privileged valid in Hiff.
  split_and!.
  - exact Hiff.
  - intros Hp. by rewrite Hp in Hiff.
  - intros Hp Hpriv ->. rewrite Hp, Hpriv in Hiff. cbn in Hiff.
    rewrite Hiff. discriminate.
  - intros Hp Hpriv Hsig. rewrite Hp, Hpriv in Hiff.
    destruct userSig; [done|]. exact Hiff.
  - intros Hp Hpriv. by rewrite Hp, Hpriv in Hiff.
  - intros (r & Hr & _). rewrite transact_executeIntent in *.
    by destruct (outcome env intent userSig w).
  - intros Hacc env' userSig' Ht Hacc'.
    assert (Hacc0 : authorized env intent userSig (vault w) = true).
    { destruct (authorized env intent userSig (vault w)) eqn:Ha; [done|].
      destruct Hacc. apply unauthorized_iff; done. }
    apply validated_checks in Hval as Hchk.
    rewrite !transact_executeIntent. unfold outcome.
    assert (Hchk' : first_failing (validation_checks env' intent (vault w)) = None).
    { apply validated_checks. unfold validated in *. by rewrite Ht. }
    rewrite Hchk', Hchk.
    pose proof (authorization_checks_spec env intent userSig (vault w)) as Hauth.
    pose proof (authorization_checks_spec env' intent userSig' (vault w)) as Hauth'.
    destruct (first_failing (authorization_checks env intent userSig (vault w)))
      as [r|]; [destruct Hauth; congruence|].
    destruct (first_failing (authorization_checks env' intent userSig' (vault w)))
      as [r|]; [destruct Hauth'; congruence|].
    unfold settled. by rewrite Ht.
Qed.

(** ** The validation order *)

(** C6. An intent whose nonce is not the account's current nonce is
    rejected whoever calls and whatever signature comes with it: the call
    reverts at the first failing check of the validation order, before the
    authorization is evaluated, with the same revert for every caller and
    signature; that check is the nonce check, with [StaleNonce], as soon
    as the four checks before it pass. *)
Theorem executeIntent_stale_nonce env intent userSig w :
  nonce intent <> nonces (vault w) !!! user intent ->
  exists r,
    first_failing (validation_checks env intent (vault w)) = Some r /\
    transact (executeIntent env intent userSig) w = (Reverted r, w) /\
    (forall env' userSig',
       block_timestamp env' = block_timestamp env ->
       transact (executeIntent env' intent userSig') w = (Reverted r, w)) /\
    (block_timestamp env <= deadline intent ->
     user intent <> 0 ->
     0 < amount intent ->
     amount intent <= perTxCap (policyOf (vault w) !!! user intent) ->
     merchantAllowed (vault w) !!! (user intent, merchant intent) = true ->
     r = RbadNonce /\ error_kind r = Some StaleNonce).
Proof.
  intros Hn.
  assert (Hany : forall r,
    first_failing (validation_checks env intent (vault w)) = Some r ->
    forall env' userSig',
      block_timestamp env' = block_timestamp env ->
      transact (executeIntent env' intent userSig') w = (Reverted r, w)).
  { intros r Hr env' userSig' Ht. rewrite transact_executeIntent. unfold outcome.
    assert (Hsame : validation_checks env' intent (vault w)
                    = validation_checks env intent (vault w))
      by (unfold validation_checks; by rewrite Ht).
    by rewrite Hsame, Hr. }
  revert Hany. rewrite transact_executeIntent. unfold outcome.
  unfold validation_checks; cbn [first_failing].
  apply N.eqb_neq in Hn. rewrite Hn.
  destruct (block_timestamp env <=? deadline intent) eqn:H1.
  2:{ intros Hany. eexists; split_and!; [done | done | by apply Hany |].
      apply N.leb_gt in H1; lia. }
  destruct (user intent =? 0) eqn:H2; cbn [negb].
  { intros Hany. eexists; split_and!; [done | done | by apply Hany |].
    apply N.eqb_eq in H2; congruence. }
  destruct (0 <? amount intent) eqn:H3.
  2:{ intros Hany. eexists; split_and!; [done | done | by apply Hany |].
      apply N.ltb_ge in H3; lia. }
  destruct (amount intent <=? perTxCap (policyOf (vault w) !!! user intent)) eqn:H4.
  2:{ intros Hany. eexists; split_and!; [done | done | by apply Hany |].
      apply N.leb_gt in H4; lia. }
  destruct (merchantAllowed (vault w) !!! (user intent, merchant intent)) eqn:H5.
  2:{ intros Hany. eexists; split_and!; [done | done | by apply Hany |].
      congruence. }
  intros Hany. eexists; split_and!; [done | done | by apply Hany | done].
Qed.

(** ** Policy store *)

(** C7. [setPolicy] reverts with [InvalidPolicy], changing nothing, when
    [perTxCap] exceeds [weeklyCap] or [monthlyCap]; otherwise it succeeds
    and replaces the caller's policy, which the next read returns; so the
    policy a successful [setPolicy] stores has [perTxCap <= weeklyCap] and
    [perTxCap <= monthlyCap]. *)
Theorem setPolicy_spec env p w :
  (weeklyCap p < perTxCap p \/ monthlyCap p < perTxCap p ->
     exists r, transact (setPolicy env p) w = (Reverted r, w) /\
               error_kind r = Some InvalidPolicy) /\
  (perTxCap p <= weeklyCap p /\ perTxCap p <= monthlyCap p ->
     transact (setPolicy env p) w =
       (Success,
        mkWorld (set_policyOf (msg_sender env) p (vault w)) (ledger w)
          (events w ++ [PolicyUpdated (msg_sender env) p]))) /\
  (forall w', transact (setPolicy env p) w = (Success, w') ->
     policyOf (vault w') !!! msg_sender env = p /\
     perTxCap (policyOf (vault w') !!! msg_sender env)
       <= weeklyCap (policyOf (vault w') !!! msg_sender env) /\
     perTxCap (policyOf (vault w') !!! msg_sender env)
       <= monthlyCap (policyOf (vault w') !!! msg_sender env)).
Proof.
  unfold transact, setPolicy. run.
  destruct (perTxCap p <=? weeklyCap p) eqn:Hw;
    [apply N.leb_le in Hw | apply N.leb_gt in Hw];
    (destruct (perTxCap p <=? monthlyCap p) eqn:Hm;
      [apply N.leb_le in Hm | apply N.leb_gt in Hm]); cbn [andb].
  - split; [lia|]. split; [reflexivity|].
    intros w' [= <-]. cbn [vault]. unfold set_policyOf; cbn [policyOf].
    rewrite lookup_total_insert_eq. auto.
  - split; [by exists RcapsPerTx|]. split; [lia | discriminate].
  - split; [by exists RcapsPerTx|]. split; [lia | discriminate].
  - split; [by exists RcapsPerTx|]. split; [lia | discriminate].
Qed.

(** ** Signature verifier *)

(** C9. [_verifyUserSig] is a total boolean function: it returns [false]
    for every signature whose length is not 65, the empty one included,
    whatever the recovery primitive would say, and [true] exactly when the
    length is 65 and the identity recovered from the intent hash and the
    signature's [(v, r, s)] is the intent's user. *)
Theorem verifyUserSig_spec intent sig :
  (length sig <> 65%nat -> _verifyUserSig intent sig = false) /\
  (_verifyUserSig intent sig = true <->
     length sig = 65%nat /\
     ecrecover (_hashIntent intent) (sig_v sig) (sig_r sig) (sig_s sig)
       = user intent).
Proof.
  unfold _verifyUserSig, sig_v, sig_r, sig_s.
  destruct (Nat.eqb (length sig) 65) eqn:Hlen; cbn [negb].
  - apply Nat.eqb_eq in Hlen. split; [congruence|].
    rewrite N.eqb_eq. tauto.
  - apply Nat.eqb_neq in Hlen. split; [reflexivity|].
    split; [discriminate | tauto].
Qed.

(** ** Funds management *)

(** C3. [withdraw] checks no ownership: whoever calls it, with the same
    token, amount and recipient on the same world, the receipt, the
    storage and the ledger that result are the same (only the [Withdrawn]
    event names the caller); the vault's storage keeps no per-user balance
    and is left as it was; and the call succeeds, moving the tokens out of
    the vault's balance, exactly when the recipient is not zero, the amount
    is positive and the token accepts the transfer. *)
Theorem withdraw_unrestricted env env' tok amt to w :
  fst (transact (withdraw env tok amt to) w)
    = fst (transact (withdraw env' tok amt to) w) /\
  vault (snd (transact (withdraw env tok amt to) w)) = vault w /\
  ledger (snd (transact (withdraw env tok amt to) w))
    = ledger (snd (transact (withdraw env' tok amt to) w)) /\
  (fst (transact (withdraw env tok amt to) w) = Success <->
     to <> 0 /\ 0 < amt /\
     exists l, erc20_transfer tok this to amt (ledger w) = Some (true, l)) /\
  (to <> 0 -> 0 < amt ->
   forall l, erc20_transfer tok this to amt (ledger w) = Some (true, l) ->
     transact (withdraw env tok amt to) w =
       (Success,
        mkWorld (vault w) l
          (events w ++ [Withdrawn (msg_sender env) tok amt to]))).
Proof.
  assert (Hfail : forall r,
    (to = 0 \/ amt <= 0 \/
     (forall l, erc20_transfer tok this to amt (ledger w) <> Some (true, l))) ->
    (Reverted r, w).1 = (Reverted r, w).1 /\
    vault (Reverted r, w).2 = vault w /\
    ledger (Reverted r, w).2 = ledger (Reverted r, w).2 /\
    ((Reverted r, w).1 = Success <->
       to <> 0 /\ 0 < amt /\
       exists l, erc20_transfer tok this to amt (ledger w) = Some (true, l)) /\
    (to <> 0 -> 0 < amt ->
     forall l, erc20_transfer tok this to amt (ledger w) = Some (true, l) ->
       (Reverted r, w) =
         (Success,
          mkWorld (vault w) l
            (events w ++ [Withdrawn (msg_sender env) tok amt to])))).
  { intros r Hno. cbn [fst snd]. split_and!; try reflexivity.
    - split; [discriminate|]. intros (? & ? & l & Hl).
      destruct Hno as [? | [? | Hno]]; [congruence | lia | by destruct (Hno l)].
    - intros ? ? l Hl.
      destruct Hno as [? | [? | Hno]]; [congruence | lia | by destruct (Hno l)]. }
  unfold transact, withdraw. run.
  destruct (to =? 0) eqn:Hto; cbn [negb];
    [apply N.eqb_eq in Hto | apply N.eqb_neq in Hto].
  { apply Hfail. tauto. }
  destruct (0 <? amt) eqn:Hamt;
    [apply N.ltb_lt in Hamt | apply N.ltb_ge in Hamt].
  2:{ apply Hfail. tauto. }
  destruct (erc20_transfer tok this to amt (ledger w)) as [[[] l]|] eqn:Hcall;
    run.
  - cbn [fst snd vault ledger]. split_and!; try reflexivity.
    + split; [eauto | reflexivity].
    + intros _ _ l' [= <-]. reflexivity.
  - apply Hfail. right; right. congruence.
  - apply Hfail. right; right. congruence.
Qed.

(** ** Reachable worlds *)

Lemma days_facts :
  0 < SEVEN_DAYS /\ SEVEN_DAYS <= THIRTY_DAYS /\
  TIMESTAMP_BOUND + THIRTY_DAYS < UINT256_MODULUS.
Proof. by vm_compute. Qed.

(** Calls other than [executeIntent] leave the replay guard and the spend
    windows alone. *)
Lemma transact_frame env c w :
  (forall intent userSig, c <> CexecuteIntent intent userSig) ->
  spend (vault (snd (transact (dispatch env c) w))) = spend (vault w) /\
  nonces (vault (snd (transact (dispatch env c) w))) = nonces (vault w) /\
  intentUsed (vault (snd (transact (dispatch env c) w))) = intentUsed (vault w).
Proof.
  intros Hc. destruct c as [p|mer b|agent b|tok amt|tok amt to|intent userSig];
    [..|by destruct (Hc intent userSig)];
    unfold transact, dispatch, setPolicy, setMerchantAllowed, setAgentAllowed,
      deposit, withdraw; run;
    repeat match goal with
           | |- context [if ?c then _ else _] => destruct c
           | |- context [match ?x with Some _ => _ | None => _ end] =>
               destruct x as [[[] ?]|]
           end; run; auto.
Qed.

(** The world a transaction of [executeIntent] leaves. *)
Lemma transact_executeIntent_world env intent userSig w :
  snd (transact (executeIntent env intent userSig) w) = w \/
  exists win1 win2 l,
    rolled (block_timestamp env) (spend (vault w) !!! user intent) = Ok win1 /\
    reserved (policyOf (vault w) !!! user intent) (amount intent) win1 = Ok win2 /\
    transact (executeIntent env intent userSig) w
      = (Success, committed intent win2 l w).
Proof.
  rewrite transact_executeIntent. unfold outcome.
  destruct (first_failing (validation_checks _ _ _)); [by left|].
  destruct (first_failing (authorization_checks _ _ _ _)); [by left|].
  unfold settled. cbv zeta.
  destruct (rolled _ _) as [win1|] eqn:Hroll; [|by left].
  destruct (reserved _ _ _) as [win2|] eqn:Hres; [|by left].
  destruct (_ <? UINT256_MODULUS); [|by left].
  destruct (erc20_transfer _ _ _ _ _) as [[[] l]|]; [|by left|by left].
  right. by exists win1, win2, l.
Qed.

Lemma rolled_ok now win win1 :
  valid_timestamp now -> window_ok win -> rolled now win = Ok win1 ->
  valid_timestamp (weekStart win1) /\ valid_timestamp (monthStart win1).
Proof.
  intros Hnow Hok. unfold rolled.
  destruct Hok as [-> | [Hws Hms]]; cbn.
  { intros [= <-]. by cbn. }
  destruct (weekStart win =? 0) eqn:H0.
  { apply N.eqb_eq in H0. unfold valid_timestamp in Hws. lia. }
  destruct (_ <? UINT256_MODULUS); [|discriminate].
  destruct (weekStart win + SEVEN_DAYS <=? now); cbn;
    (destruct (_ <? UINT256_MODULUS); [|discriminate]);
    (destruct (monthStart win + THIRTY_DAYS <=? now); intros [= <-]; by cbn).
Qed.

Lemma reserved_starts p amt win win2 :
  reserved p amt win = Ok win2 ->
  weekStart win2 = weekStart win /\ monthStart win2 = monthStart win.
Proof.
  unfold reserved.
  repeat match goal with
         | |- context [if ?c then _ else _] => destruct c
         end; try discriminate.
  intros [= <-]. by cbn.
Qed.

Lemma step_window_ok w w' :
  step w w' ->
  (forall u, window_ok (spend (vault w) !!! u)) ->
  forall u, window_ok (spend (vault w') !!! u).
Proof.
  intros Hstep Hinv u. destruct Hstep as [env c w Hnow | w l]; [|apply Hinv].
  destruct c as [p|mer b|agent b|tok amt|tok amt to|intent userSig].
  1-5: (match goal with
        | |- context [dispatch ?e ?c] =>
            destruct (transact_frame e c w) as (-> & _); [discriminate | apply Hinv]
        end).
  cbn [dispatch].
  destruct (transact_executeIntent_world env intent userSig w)
    as [-> | (win1 & win2 & l & Hroll & Hres & ->)]; [apply Hinv|].
  cbn [snd]. unfold committed; cbn [vault].
  unfold set_nonces, set_spend, set_intentUsed; cbn [spend].
  destruct (decide (user intent = u)) as [<-|Hne].
  - rewrite lookup_total_insert_eq. right.
    apply rolled_ok in Hroll; [|done|apply Hinv].
    apply reserved_starts in Hres as [-> ->]. done.
  - rewrite lookup_total_insert_ne by done. apply Hinv.
Qed.

(** Every spend window of a reachable world is untouched or has both
    clocks set. *)
Lemma reachable_window_ok w u :
  reachable w -> window_ok (spend (vault w) !!! u).
Proof.
  intros [l Hsteps]. revert u. revert w Hsteps.
  apply (rtc_ind_r (fun w => forall u, window_ok (spend (vault w) !!! u))).
  - intros u. left. cbn. by rewrite lookup_total_empty.
  - eauto using step_window_ok.
Qed.

(** On such a window the contract's roll-over is the specified one. *)
Lemma rolled_spec now win :
  valid_timestamp now -> window_ok win ->
  rolled now win = Ok (spec_rollIfExpired now win).
Proof.
  intros Hnow Hok. pose proof days_facts as (H7 & H730 & Hbound).
  unfold rolled, spec_rollIfExpired.
  destruct Hok as [-> | [Hws Hms]]; [reflexivity|].
  unfold valid_timestamp in *.
  destruct (weekStart win =? 0) eqn:H0; [apply N.eqb_eq in H0; lia|].
  destruct (weekStart win + SEVEN_DAYS <? UINT256_MODULUS) eqn:Ho1;
    [|apply N.ltb_ge in Ho1; lia].
  assert (Hw : (weekStart win + SEVEN_DAYS <=? now)
               = (SEVEN_DAYS <=? now - weekStart win)).
  { apply eq_true_iff_eq. rewrite !N.leb_le. lia. }
  assert (Hm : (monthStart win + THIRTY_DAYS <=? now)
               = (THIRTY_DAYS <=? now - monthStart win)).
  { apply eq_true_iff_eq. rewrite !N.leb_le. lia. }
  rewrite Hw.
  destruct (SEVEN_DAYS <=? now - weekStart win); cbn;
    (destruct (monthStart win + THIRTY_DAYS <? UINT256_MODULUS) eqn:Ho2;
       [|apply N.ltb_ge in Ho2; lia]);
    rewrite Hm; destruct (THIRTY_DAYS <=? now - monthStart win);
    by destruct win.
Qed.

(** ** Spend window accountant *)

(** The initialization branch writes the two clocks and leaves the spent
    counters as they are; they are zero in every unset window of a
    reachable world, which is why the stored window is the specified one. *)
Remark rolled_unset now spent_w ms spent_m :
  rolled now (mkSpendWindow 0 spent_w ms spent_m)
  = Ok (mkSpendWindow now spent_w now spent_m).
Proof. reflexivity. Qed.

Lemma rollWindows_reachable env usr w :
  reachable w ->
  valid_timestamp (block_timestamp env) ->
  _rollWindowsIfNeeded env usr w =
    Ok (tt, mkWorld
              (set_spend usr
                 (spec_rollIfExpired (block_timestamp env) (spend (vault w) !!! usr))
                 (vault w))
              (ledger w) (events w)).
Proof.
  intros Hreach Hnow. rewrite run_rollWindows.
  by rewrite rolled_spec by eauto using reachable_window_ok.
Qed.

(** C8. In a reachable world, at a block timestamp, [_rollWindowsIfNeeded]
    cannot fail, consults no cap, and stores the window that
    [rollIfExpired] specifies: an unset window gets both clocks set to now
    with nothing spent, and nothing else is done; otherwise the week
    restarts empty when [now - weekStart >= 7 days], the month restarts
    empty when [now - monthStart >= 30 days], each on its own condition, so
    that either may roll while the other does not. *)
Theorem rollWindows_spec env usr w :
  reachable w ->
  valid_timestamp (block_timestamp env) ->
  let now := block_timestamp env in
  let win := spend (vault w) !!! usr in
  _rollWindowsIfNeeded env usr w =
    Ok (tt, mkWorld (set_spend usr (spec_rollIfExpired now win) (vault w))
              (ledger w) (events w)) /\
  (weekStart win = 0 -> spec_rollIfExpired now win = mkSpendWindow now 0 now 0) /\
  (weekStart win <> 0 ->
     (SEVEN_DAYS <= now - weekStart win ->
        weekStart (spec_rollIfExpired now win) = now /\
        weekSpent (spec_rollIfExpired now win) = 0) /\
     (now - weekStart win < SEVEN_DAYS ->
        weekStart (spec_rollIfExpired now win) = weekStart win /\
        weekSpent (spec_rollIfExpired now win) = weekSpent win) /\
     (THIRTY_DAYS <= now - monthStart win ->
        monthStart (spec_rollIfExpired now win) = now /\
        monthSpent (spec_rollIfExpired now win) = 0) /\
     (now - monthStart win < THIRTY_DAYS ->
        monthStart (spec_rollIfExpired now win) = monthStart win /\
        monthSpent (spec_rollIfExpired now win) = monthSpent win)).
Proof.
  intros Hreach Hnow now win.
  pose proof (reachable_window_ok w usr Hreach) as Hok. fold win in Hok.
  split; [|split].
  - by apply rollWindows_reachable.
  - intros H0. unfold spec_rollIfExpired. by rewrite H0.
  - intros H0. unfold spec_rollIfExpired.
    apply N.eqb_neq in H0. rewrite H0. cbn.
    split_and!; intros H.
    + apply N.leb_le in H. by rewrite H.
    + apply N.leb_gt in H. by rewrite H.
    + apply N.leb_le in H. by rewrite H.
    + apply N.leb_gt in H. by rewrite H.
Qed.

(** ** Views *)

(** C10. In a reachable world, at a block timestamp, [remainingWeekly] and
    [remainingMonthly] change nothing and return the cap minus the amount
    spent, never below 0, read from the window that [_rollWindowsIfNeeded]
    would store if it ran now. *)
Theorem remaining_views env usr w :
  reachable w ->
  valid_timestamp (block_timestamp env) ->
  exists w1,
    _rollWindowsIfNeeded env usr w = Ok (tt, w1) /\
    remainingWeekly env usr w =
      Ok (spec_remaining (weeklyCap (policyOf (vault w) !!! usr))
            (weekSpent (spend (vault w1) !!! usr)), w) /\
    remainingMonthly env usr w =
      Ok (spec_remaining (monthlyCap (policyOf (vault w) !!! usr))
            (monthSpent (spend (vault w1) !!! usr)), w).
Proof.
  intros Hreach Hnow.
  pose proof (rollWindows_reachable env usr w Hreach Hnow) as Hroll.
  eexists. split; [exact Hroll|].
  cbn [vault]. rewrite spend_set_spend.
  pose proof (reachable_window_ok w usr Hreach) as Hok.
  pose proof days_facts as (H7 & H730 & Hbound).
  unfold remainingWeekly, remainingMonthly, _viewRolledWeek, _viewRolledMonth,
    spec_remaining, spec_rollIfExpired.
  run. remember (spend (vault w) !!! usr) as win eqn:Hwin. clear Hwin.
  destruct Hok as [-> | [Hws Hms]].
  { cbn [weekStart weekSpent monthStart monthSpent N.eqb]. run. cbn [snd].
    split; by destruct (_ <=? 0). }
  unfold valid_timestamp in *.
  destruct (weekStart win =? 0) eqn:Hw0; [apply N.eqb_eq in Hw0; lia|].
  destruct (monthStart win =? 0) eqn:Hm0; [apply N.eqb_eq in Hm0; lia|].
  run. cbn [weekSpent monthSpent].
  destruct (weekStart win + SEVEN_DAYS <? UINT256_MODULUS) eqn:Ho1;
    [|apply N.ltb_ge in Ho1; lia].
  destruct (monthStart win + THIRTY_DAYS <? UINT256_MODULUS) eqn:Ho2;
    [|apply N.ltb_ge in Ho2; lia].
  assert (Hw : (weekStart win + SEVEN_DAYS <=? block_timestamp env)
               = (SEVEN_DAYS <=? block_timestamp env - weekStart win)).
  { apply eq_true_iff_eq. rewrite !N.leb_le. lia. }
  assert (Hm : (monthStart win + THIRTY_DAYS <=? block_timestamp env)
               = (THIRTY_DAYS <=? block_timestamp env - monthStart win)).
  { apply eq_true_iff_eq. rewrite !N.leb_le. lia. }
  rewrite Hw, Hm. split.
  - destruct (SEVEN_DAYS <=? block_timestamp env - weekStart win); run; cbn [snd];
      by destruct (weeklyCap _ <=? _).
  - destruct (THIRTY_DAYS <=? block_timestamp env - monthStart win); run; cbn [snd];
      by destruct (monthlyCap _ <=? _).
Qed.

(** ** Commit, replay and rollback *)

Lemma validation_errors env intent s r :
  first_failing (validation_checks env intent s) = Some r ->
  In r [Rexpired; Ruser0; Ramount0; RperTxCap; RmerchantNotAllowed;
        RbadNonce; RintentUsed].
Proof.
  unfold validation_checks; cbn [first_failing].
  repeat match goal with
         | |- context [if ?c then _ else _] => destruct c
         end; cbn; intros [= <-]; tauto.
Qed.

Lemma rolled_errors now win r : rolled now win = Err r -> r = Panic_overflow.
Proof.
  unfold rolled. cbv zeta.
  repeat match goal with
         | |- context [if ?c then _ else _] => destruct c
         end; congruence.
Qed.

Lemma reserved_errors p amt win r :
  reserved p amt win = Err r ->
  r = Panic_overflow \/ r = RweeklyCap \/ r = RmonthlyCap.
Proof.
  unfold reserved.
  repeat match goal with
         | |- context [if ?c then _ else _] => destruct c
         end; intros [= <-]; tauto.
Qed.

(** When, and into which world, [executeIntent] succeeds. *)
Lemma executeIntent_success env intent userSig w w' :
  transact (executeIntent env intent userSig) w = (Success, w') <->
  validated env intent (vault w) /\
  authorized env intent userSig (vault w) = true /\
  exists win1 win2 l,
    rolled (block_timestamp env) (spend (vault w) !!! user intent) = Ok win1 /\
    reserved (policyOf (vault w) !!! user intent) (amount intent) win1 = Ok win2 /\
    nonces (vault w) !!! user intent + 1 < UINT256_MODULUS /\
    erc20_transfer (token intent) this (merchant intent) (amount intent)
      (ledger w) = Some (true, l) /\
    w' = committed intent win2 l w.
Proof.
  rewrite transact_executeIntent, validated_checks. unfold outcome.
  pose proof (authorization_checks_spec env intent userSig (vault w)) as Hauth.
  destruct (first_failing (validation_checks _ _ _)) as [r|].
  { split; [discriminate | intros (? & _); discriminate]. }
  destruct (first_failing (authorization_checks _ _ _ _)) as [r|].
  { destruct Hauth as [Hrej _].
    split; [discriminate | intros (_ & ? & _); congruence]. }
  unfold settled. cbv zeta.
  destruct (rolled _ _) as [win1|r].
  2:{ split; [discriminate | intros (_ & _ & ? & ? & ? & ? & _); discriminate]. }
  destruct (reserved _ _ win1) as [win2|r] eqn:Hres.
  2:{ split; [discriminate|].
      intros (_ & _ & ? & ? & ? & [= <-] & ? & _); congruence. }
  destruct (_ <? UINT256_MODULUS) eqn:Hn;
    [apply N.ltb_lt in Hn | apply N.ltb_ge in Hn].
  2:{ split; [discriminate|]. intros (_ & _ & ? & ? & ? & _ & _ & ? & _); lia. }
  destruct (erc20_transfer _ _ _ _ _) as [[[] l]|].
  - split.
    + intros [= <-]. split_and!; try done. by exists win1, win2, l.
    + intros (_ & _ & ? & ? & ? & [= <-] & Hres' & _ & [= <-] & ->).
      congruence.
  - split; [discriminate|].
    intros (_ & _ & ? & ? & ? & _ & _ & _ & ? & _); discriminate.
  - split; [discriminate|].
    intros (_ & _ & ? & ? & ? & _ & _ & _ & ? & _); discriminate.
Qed.

(** C4. A call of [executeIntent] that fails leaves the world exactly as
    it was: nonce, consumed set and spend windows included.  When it
    failed on the token transfer, the intent is therefore not consumed, the
    account's nonce is still the intent's, and the same call succeeds as
    soon as the token accepts the transfer. *)
Theorem executeIntent_atomic env intent userSig w r :
  fst (transact (executeIntent env intent userSig) w) = Reverted r ->
  snd (transact (executeIntent env intent userSig) w) = w /\
  (error_kind r = Some TransferFailed ->
     nonces (vault w) !!! user intent = nonce intent /\
     intentUsed (vault w) !!! _hashIntent intent = false /\
     forall l l',
       erc20_transfer (token intent) this (merchant intent) (amount intent) l
         = Some (true, l') ->
       fst (transact (executeIntent env intent userSig)
              (mkWorld (vault w) l (events w))) = Success).
Proof.
  rewrite transact_executeIntent.
  destruct (outcome env intent userSig w) as [w'|r'] eqn:Hout; cbn [fst snd];
    [discriminate|].
  intros [= ->]. split; [reflexivity|]. intros Hkind.
  unfold outcome in Hout.
  destruct (first_failing (validation_checks env intent (vault w)))
    as [r0|] eqn:Hval.
  { injection Hout as ->. apply validation_errors in Hval. cbn in Hval.
    repeat (destruct Hval as [<- | Hval]; [discriminate|]). done. }
  pose proof (authorization_checks_spec env intent userSig (vault w)) as Hauth.
  destruct (first_failing (authorization_checks env intent userSig (vault w)))
    as [r0|] eqn:Hau.
  { injection Hout as ->. destruct Hauth; congruence. }
  apply validated_checks in Hval as Hv.
  destruct Hv as (_ & _ & _ & _ & _ & Hnonce & Hused).
  split_and!; [done | done |].
  intros l l' Hcall. rewrite transact_executeIntent. unfold outcome.
  cbn [vault]. rewrite Hval, Hau.
  unfold settled in *. cbv zeta in *. cbn [vault ledger].
  destruct (rolled _ _) as [win1|r1] eqn:Hroll.
  2:{ injection Hout as ->. apply rolled_errors in Hroll as ->. discriminate. }
  destruct (reserved _ _ win1) as [win2|r2] eqn:Hres.
  2:{ injection Hout as ->.
      apply reserved_errors in Hres as [-> | [-> | ->]]; discriminate. }
  destruct (_ <? UINT256_MODULUS); [|injection Hout as <-; discriminate].
  by rewrite Hcall.
Qed.

(** The replay checks, once the four checks before them pass. *)
Lemma validation_replay env intent s :
  block_timestamp env <= deadline intent ->
  user intent <> 0 ->
  0 < amount intent ->
  amount intent <= perTxCap (policyOf s !!! user intent) ->
  merchantAllowed s !!! (user intent, merchant intent) = true ->
  first_failing (validation_checks env intent s) =
    if nonce intent =? nonces s !!! user intent then
      if (intentUsed s !!! _hashIntent intent : bool) then Some RintentUsed
      else None
    else Some RbadNonce.
Proof.
  intros H1 H2 H3 H4 H5. unfold validation_checks; cbn [first_failing].
  apply N.leb_le in H1. apply N.leb_le in H4.
  apply N.eqb_neq in H2. apply N.ltb_lt in H3.
  rewrite H1, H2, H3, H4, H5. cbn [negb].
  destruct (nonce intent =? _); [|reflexivity].
  by destruct (intentUsed s !!! _).
Qed.

(** A consumed intent stays consumed. *)
Lemma step_intentUsed w w' h :
  step w w' ->
  intentUsed (vault w) !!! h = true -> intentUsed (vault w') !!! h = true.
Proof.
  intros Hstep Hused. destruct Hstep as [env c w Hnow | w l]; [|done].
  destruct c as [p|mer b|agent b|tok amt|tok amt to|intent userSig].
  1-5: (match goal with
        | |- context [dispatch ?e ?c] =>
            destruct (transact_frame e c w) as (_ & _ & ->); [discriminate | done]
        end).
  cbn [dispatch].
  destruct (transact_executeIntent_world env intent userSig w)
    as [-> | (win1 & win2 & l & _ & _ & ->)]; [done|].
  cbn [snd]. unfold committed; cbn [vault].
  unfold set_nonces, set_spend, set_intentUsed; cbn [intentUsed].
  rewrite lookup_total_insert. by case_decide.
Qed.

Lemma steps_intentUsed w w' h :
  rtc step w w' ->
  intentUsed (vault w) !!! h = true -> intentUsed (vault w') !!! h = true.
Proof. induction 1; eauto using step_intentUsed. Qed.

(** A consumed intent is rejected. *)
Lemma used_intent_reverts env intent userSig w :
  intentUsed (vault w) !!! _hashIntent intent = true ->
  exists r, transact (executeIntent env intent userSig) w = (Reverted r, w).
Proof.
  intros Hused. rewrite transact_executeIntent. unfold outcome.
  destruct (first_failing (validation_checks env intent (vault w)))
    as [r|] eqn:Hval; [by exists r|].
  apply validated_checks in Hval as (_ & _ & _ & _ & _ & _ & Hfree).
  congruence.
Qed.

(** C2. A successful [executeIntent] consumes the intent for good: the
    account's nonce grows by exactly 1 and the intent's hash is in the
    consumed set; submitting the same intent again reverts with
    [StaleNonce]; were the nonce set back to the intent's, it would revert
    with [IntentAlreadyUsed]; and in no world the chain can reach from
    there does the same intent execute again. *)
Theorem executeIntent_consumes env intent userSig w w' :
  transact (executeIntent env intent userSig) w = (Success, w') ->
  nonces (vault w') !!! user intent = nonces (vault w) !!! user intent + 1 /\
  intentUsed (vault w') !!! _hashIntent intent = true /\
  (forall env' userSig' l ev,
     block_timestamp env' <= deadline intent ->
     transact (executeIntent env' intent userSig') (mkWorld (vault w') l ev)
       = (Reverted RbadNonce, mkWorld (vault w') l ev) /\
     error_kind RbadNonce = Some StaleNonce) /\
  (forall env' userSig' l ev,
     block_timestamp env' <= deadline intent ->
     let reset := mkWorld (set_nonces (user intent) (nonce intent) (vault w')) l ev in
     transact (executeIntent env' intent userSig') reset
       = (Reverted RintentUsed, reset) /\
     error_kind RintentUsed = Some IntentAlreadyUsed) /\
  (forall w'' env' userSig',
     rtc step w' w'' ->
     exists r, transact (executeIntent env' intent userSig') w'' = (Reverted r, w'')).
Proof.
  intros Hok. apply executeIntent_success in Hok
    as (Hval & _ & win1 & win2 & l0 & _ & _ & Hnext & _ & ->).
  destruct Hval as (_ & Huser & Hamt & Hcap & Hmer & Hnonce & _).
  assert (Hn' : nonces (vault (committed intent win2 l0 w)) !!! user intent
                = nonces (vault w) !!! user intent + 1).
  { unfold committed, set_nonces; cbn [vault nonces].
    apply lookup_total_insert_eq. }
  assert (Hu' : intentUsed (vault (committed intent win2 l0 w))
                  !!! _hashIntent intent = true).
  { unfold committed, set_nonces, set_spend, set_intentUsed;
      cbn [vault intentUsed]. apply lookup_total_insert_eq. }
  split_and!; [done | done | | |].
  - intros env' userSig' l ev Hdl. split; [|reflexivity].
    rewrite transact_executeIntent. unfold outcome. cbn [vault].
    rewrite validation_replay by done. rewrite Hn'.
    destruct (nonce intent =? _) eqn:Heq; [|reflexivity].
    apply N.eqb_eq in Heq. lia.
  - intros env' userSig' l ev Hdl reset. split; [|reflexivity].
    rewrite transact_executeIntent. unfold outcome. subst reset. cbn [vault].
    rewrite validation_replay by done.
    assert (Hreset : nonces (set_nonces (user intent) (nonce intent)
                       (vault (committed intent win2 l0 w))) !!! user intent
                     = nonce intent).
    { unfold set_nonces at 1; cbn [nonces]. apply lookup_total_insert_eq. }
    rewrite Hreset, N.eqb_refl.
    change (intentUsed (set_nonces (user intent) (nonce intent)
              (vault (committed intent win2 l0 w))))
      with (intentUsed (vault (committed intent win2 l0 w))).
    by rewrite Hu'.
  - intros w'' env' userSig' Hsteps.
    apply used_intent_reverts. by apply steps_intentUsed with (committed intent win2 l0 w).
Qed.

(** ** Spend caps *)

Lemma reserved_ok p amt win win2 :
  reserved p amt win = Ok win2 ->
  weekSpent win2 = weekSpent win + amt /\
  monthSpent win2 = monthSpent win + amt /\
  weekSpent win2 <= weeklyCap p /\
  monthSpent win2 <= monthlyCap p.
Proof.
  unfold reserved.
  destruct (weekSpent win + amt <? UINT256_MODULUS); [|discriminate].
  destruct (weekSpent win + amt <=? weeklyCap p) eqn:Hw; [|discriminate].
  destruct (monthSpent win + amt <? UINT256_MODULUS); [|discriminate].
  destruct (monthSpent win + amt <=? monthlyCap p) eqn:Hm; [|discriminate].
  intros [= <-]. cbn. apply N.leb_le in Hw, Hm. auto.
Qed.

Lemma rollWindows_rolled env usr w w1 :
  _rollWindowsIfNeeded env usr w = Ok (tt, w1) ->
  rolled (block_timestamp env) (spend (vault w) !!! usr)
    = Ok (spend (vault w1) !!! usr).
Proof.
  rewrite run_rollWindows.
  destruct (rolled _ _) as [win1|]; [|discriminate].
  intros [= <-]. cbn [vault]. by rewrite spend_set_spend.
Qed.

(** C5. After every successful [executeIntent] the account's
    [weekSpent] is at most [weeklyCap] and its [monthSpent] at most
    [monthlyCap], and both counters are those of the rolled window plus
    exactly the amount.  On the rolled window, an authorized call reverts
    with [WeeklyCapExceeded] when [weekSpent + amount] fits 256 bits and
    exceeds [weeklyCap], and else with [MonthlyCapExceeded] when
    [monthSpent + amount] fits 256 bits and exceeds [monthlyCap]; a sum
    that does not fit 256 bits aborts the call with an arithmetic panic. *)
Theorem executeIntent_caps env intent userSig w :
  let p := policyOf (vault w) !!! user intent in
  (forall w', transact (executeIntent env intent userSig) w = (Success, w') ->
     policyOf (vault w') !!! user intent = p /\
     weekSpent (spend (vault w') !!! user intent) <= weeklyCap p /\
     monthSpent (spend (vault w') !!! user intent) <= monthlyCap p /\
     exists w1,
       _rollWindowsIfNeeded env (user intent) w = Ok (tt, w1) /\
       weekSpent (spend (vault w') !!! user intent)
         = weekSpent (spend (vault w1) !!! user intent) + amount intent /\
       monthSpent (spend (vault w') !!! user intent)
         = monthSpent (spend (vault w1) !!! user intent) + amount intent) /\
  (validated env intent (vault w) ->
   authorized env intent userSig (vault w) = true ->
   forall w1, _rollWindowsIfNeeded env (user intent) w = Ok (tt, w1) ->
     let wk := weekSpent (spend (vault w1) !!! user intent) + amount intent in
     let mo := monthSpent (spend (vault w1) !!! user intent) + amount intent in
     (wk < UINT256_MODULUS -> weeklyCap p < wk ->
        transact (executeIntent env intent userSig) w = (Reverted RweeklyCap, w) /\
        error_kind RweeklyCap = Some WeeklyCapExceeded) /\
     (wk < UINT256_MODULUS -> wk <= weeklyCap p ->
      mo < UINT256_MODULUS -> monthlyCap p < mo ->
        transact (executeIntent env intent userSig) w = (Reverted RmonthlyCap, w) /\
        error_kind RmonthlyCap = Some MonthlyCapExceeded) /\
     (UINT256_MODULUS <= wk \/ (wk <= weeklyCap p /\ UINT256_MODULUS <= mo) ->
        transact (executeIntent env intent userSig) w
          = (Reverted Panic_overflow, w))).
Proof.
  intros p. split.
  - intros w' Hok. apply executeIntent_success in Hok
      as (_ & _ & win1 & win2 & l & Hroll & Hres & _ & _ & ->).
    assert (Hwin : spend (vault (committed intent win2 l w)) !!! user intent = win2).
    { unfold committed, set_nonces; cbn [vault spend]. apply spend_set_spend. }
    rewrite Hwin. apply reserved_ok in Hres as (Hwk & Hmo & Hwcap & Hmcap).
    split_and!; [reflexivity | done | done |].
    eexists. rewrite run_rollWindows, Hroll. split; [reflexivity|].
    cbn [vault]. by rewrite spend_set_spend.
  - intros Hval Hauth w1 Hroll wk mo.
    apply rollWindows_rolled in Hroll.
    apply validated_checks in Hval.
    pose proof (authorization_checks_spec env intent userSig (vault w)) as Hau.
    rewrite transact_executeIntent. unfold outcome. rewrite Hval.
    destruct (first_failing (authorization_checks env intent userSig (vault w)));
      [destruct Hau; congruence|].
    unfold settled. cbv zeta. rewrite Hroll. unfold reserved.
    fold p wk mo. split_and!.
    + intros Hfit Hover. apply N.ltb_lt in Hfit. apply N.leb_gt in Hover.
      by rewrite Hfit, Hover.
    + intros Hfit Hin Hfit' Hover.
      apply N.ltb_lt in Hfit, Hfit'. apply N.leb_le in Hin. apply N.leb_gt in Hover.
      by rewrite Hfit, Hin, Hfit', Hover.
    + intros [Hbig | [Hin Hbig]].
      * apply N.ltb_ge in Hbig. by rewrite Hbig.
      * destruct (wk <? UINT256_MODULUS); [|reflexivity].
        apply N.leb_le in Hin. apply N.ltb_ge in Hbig. by rewrite Hin, Hbig.
Qed.

(** * Further properties of the contract *)

(** ** What each transaction writes *)

Lemma committed_policyOf intent win l w :
  policyOf (vault (committed intent win l w)) = policyOf (vault w).
Proof. reflexivity. Qed.

Lemma committed_merchantAllowed intent win l w :
  merchantAllowed (vault (committed intent win l w)) = merchantAllowed (vault w).
Proof. reflexivity. Qed.

Lemma committed_agentAllowed intent win l w :
  agentAllowed (vault (committed intent win l w)) = agentAllowed (vault w).
Proof. reflexivity. Qed.

Lemma committed_nonces intent win l w u :
  nonces (vault (committed intent win l w)) !!! u =
  if decide (user intent = u) then nonces (vault w) !!! user intent + 1
  else nonces (vault w) !!! u.
Proof.
  unfold committed, set_nonces; cbn [vault nonces].
  apply lookup_total_insert.
Qed.

Lemma committed_spend intent win l w u :
  spend (vault (committed intent win l w)) !!! u =
  if decide (user intent = u) then win else spend (vault w) !!! u.
Proof.
  unfold committed, set_nonces, set_spend, set_intentUsed; cbn [vault spend].
  apply lookup_total_insert.
Qed.

Lemma committed_intentUsed intent win l w h :
  intentUsed (vault (committed intent win l w)) !!! h =
  if decide (_hashIntent intent = h) then true else intentUsed (vault w) !!! h.
Proof.
  unfold committed, set_nonces, set_spend, set_intentUsed; cbn [vault intentUsed].
  apply lookup_total_insert.
Qed.

(** The policy store is written by [setPolicy] only, and only with a
    policy that passes its sanity check. *)
Lemma transact_policyOf env c w :
  policyOf (vault (snd (transact (dispatch env c) w))) = policyOf (vault w) \/
  exists p,
    c = CsetPolicy p /\ policy_ok p /\
    policyOf (vault (snd (transact (dispatch env c) w)))
      = <[msg_sender env := p]> (policyOf (vault w)).
Proof.
  destruct c as [p|mer b|agent b|tok amt|tok amt to|intent userSig].
  - unfold transact, dispatch, setPolicy. run.
    destruct (perTxCap p <=? weeklyCap p) eqn:Hw; cbn [andb]; [|by left].
    destruct (perTxCap p <=? monthlyCap p) eqn:Hm; [|by left].
    right. exists p. apply N.leb_le in Hw, Hm. by repeat split.
  - left. unfold transact, dispatch, setMerchantAllowed. run. reflexivity.
  - left. unfold transact, dispatch, setAgentAllowed. run. reflexivity.
  - left. unfold transact, dispatch, deposit. run.
    destruct (0 <? amt); [|reflexivity].
    destruct (erc20_transferFrom _ _ _ _ _ _) as [[[] l]|]; run; reflexivity.
  - left. unfold transact, dispatch, withdraw. run.
    destruct (negb (to =? 0)); [|reflexivity].
    destruct (0 <? amt); [|reflexivity].
    destruct (erc20_transfer _ _ _ _ _) as [[[] l]|]; run; reflexivity.
  - left. cbn [dispatch].
    by destruct (transact_executeIntent_world env intent userSig w)
      as [-> | (win1 & win2 & l & _ & _ & ->)].
Qed.

(** The events a transaction other than [executeIntent] adds name no
    executed intent. *)
Lemma transact_frame_events env c w :
  (forall intent userSig, c <> CexecuteIntent intent userSig) ->
  exists evs,
    events (snd (transact (dispatch env c) w)) = events w ++ evs /\
    forall u, executed u evs = 0.
Proof.
  intros Hc. destruct c as [p|mer b|agent b|tok amt|tok amt to|intent userSig];
    [..|by destruct (Hc intent userSig)];
    unfold transact, dispatch, setPolicy, setMerchantAllowed, setAgentAllowed,
      deposit, withdraw; run;
    repeat match goal with
           | |- context [if ?c then _ else _] => destruct c
           | |- context [match ?x with Some _ => _ | None => _ end] =>
               destruct x as [[[] ?]|]
           end; run; cbn [snd events];
    first [ by (exists []; rewrite app_nil_r)
          | by (eexists [_]; split; [reflexivity | done]) ].
Qed.

Lemma executed_app u evs evs' :
  executed u (evs ++ evs') = executed u evs + executed u evs'.
Proof.
  induction evs as [|e evs IH]; [reflexivity|].
  destruct e; cbn; rewrite IH; lia.
Qed.

(** ** Policy store *)

Lemma step_policy_ok w w' :
  step w w' ->
  (forall u, policy_ok (policyOf (vault w) !!! u)) ->
  forall u, policy_ok (policyOf (vault w') !!! u).
Proof.
  intros Hstep Hinv u. destruct Hstep as [env c w Hnow | w l]; [|apply Hinv].
  destruct (transact_policyOf env c w) as [-> | (p & _ & Hp & ->)]; [apply Hinv|].
  rewrite lookup_total_insert. case_decide; [done | apply Hinv].
Qed.

Lemma policy_ok_reachable w u :
  reachable w -> policy_ok (policyOf (vault w) !!! u).
Proof.
  intros [l Hsteps]. revert u. revert w Hsteps.
  apply (rtc_ind_r (fun w => forall u, policy_ok (policyOf (vault w) !!! u))).
  - intros u. cbn. rewrite lookup_total_empty. by split.
  - eauto using step_policy_ok.
Qed.

(** X1. In every world the chain can reach, the policy stored for any
    account, set or not, has [perTxCap <= weeklyCap] and
    [perTxCap <= monthlyCap]: nothing but [setPolicy] writes a policy. *)
Theorem reachable_policy_invariant w :
  reachable w ->
  forall u,
    perTxCap (policyOf (vault w) !!! u) <= weeklyCap (policyOf (vault w) !!! u) /\
    perTxCap (policyOf (vault w) !!! u) <= monthlyCap (policyOf (vault w) !!! u).
Proof. intros Hreach u. by apply policy_ok_reachable. Qed.

(** X2. An account that never set a policy cannot spend: every
    [executeIntent] on its behalf reverts, changing nothing, at the
    per-transaction cap check or at one of the checks before it, whoever
    calls and whatever the signature. *)
Theorem no_policy_no_spend env intent userSig w :
  policyOf (vault w) !! user intent = None ->
  exists r,
    transact (executeIntent env intent userSig) w = (Reverted r, w) /\
    (r = Rexpired \/ r = Ruser0 \/ r = Ramount0 \/ r = RperTxCap).
Proof.
  intros Hnone. rewrite transact_executeIntent. unfold outcome.
  unfold validation_checks; cbn [first_failing].
  rewrite (lookup_total_alt (policyOf (vault w))), Hnone. cbn [default perTxCap inhabitant Policy_inhabited].
  destruct (block_timestamp env <=? deadline intent); [|eauto 6].
  destruct (user intent =? 0); cbn [negb]; [eauto 6|].
  destruct (0 <? amount intent) eqn:Hamt; [|eauto 6].
  apply N.ltb_lt in Hamt.
  destruct (amount intent <=? 0) eqn:Hcap; [apply N.leb_le in Hcap; lia|].
  eauto 7.
Qed.

(** ** What a successful [executeIntent] touches *)

(** X3. A successful [executeIntent] writes the nonce and the spend window
    of the intent's account and the consumed flag of the intent's hash, and
    nothing else in the vault: policies, both allowlists, and every other
    account's nonce and window are as before.  It makes the one token
    transfer of the intent and logs the one [IntentExecuted] event. *)
Theorem executeIntent_frame env intent userSig w w' :
  transact (executeIntent env intent userSig) w = (Success, w') ->
  policyOf (vault w') = policyOf (vault w) /\
  merchantAllowed (vault w') = merchantAllowed (vault w) /\
  agentAllowed (vault w') = agentAllowed (vault w) /\
  (forall u, u <> user intent ->
     nonces (vault w') !!! u = nonces (vault w) !!! u /\
     spend (vault w') !!! u = spend (vault w) !!! u) /\
  (forall h, h <> _hashIntent intent ->
     intentUsed (vault w') !!! h = intentUsed (vault w) !!! h) /\
  erc20_transfer (token intent) this (merchant intent) (amount intent) (ledger w)
    = Some (true, ledger w') /\
  events w' = events w ++ [IntentExecuted (_hashIntent intent) (user intent)
                             (merchant intent) (token intent) (amount intent)].
Proof.
  intros Hok. apply executeIntent_success in Hok
    as (_ & _ & win1 & win2 & l & _ & _ & _ & Hcall & ->).
  split_and!; try reflexivity.
  - intros u Hu. rewrite committed_nonces, committed_spend.
    by rewrite !decide_False by congruence.
  - intros h Hh. rewrite committed_intentUsed.
    by rewrite decide_False by congruence.
  - exact Hcall.
Qed.

(** ** Nonces and the event log *)

Lemma step_nonce_count w w' u :
  step w w' ->
  nonces (vault w) !!! u = executed u (events w) ->
  nonces (vault w') !!! u = executed u (events w').
Proof.
  intros Hstep Hinv. destruct Hstep as [env c w Hnow | w l]; [|done].
  destruct c as [p|mer b|agent b|tok amt|tok amt to|intent userSig].
  1-5: (match goal with
        | |- context [dispatch ?e ?c] =>
            destruct (transact_frame e c w) as (_ & -> & _); [discriminate|];
            destruct (transact_frame_events e c w) as (evs & -> & Hevs);
              [discriminate|];
            rewrite executed_app, Hevs; lia
        end).
  cbn [dispatch].
  destruct (transact_executeIntent_world env intent userSig w)
    as [-> | (win1 & win2 & l & _ & _ & ->)]; [done|].
  cbn [snd]. rewrite committed_nonces.
  unfold committed; cbn [events]. rewrite executed_app; cbn [executed].
  case_decide as Hu.
  - subst u. rewrite N.eqb_refl. lia.
  - apply N.eqb_neq in Hu. rewrite Hu. lia.
Qed.

(** X4. In every reachable world an account's nonce is the number of
    [IntentExecuted] events the log holds for it: the nonce counts the
    intents executed on the account's behalf, and nothing else moves it. *)
Theorem reachable_nonce_counts w :
  reachable w ->
  forall u, nonces (vault w) !!! u = executed u (events w).
Proof.
  intros [l Hsteps]. revert w Hsteps.
  apply (rtc_ind_r (fun w => forall u, nonces (vault w) !!! u = executed u (events w))).
  - intros u. cbn. by rewrite lookup_total_empty.
  - eauto using step_nonce_count.
Qed.

Lemma step_nonce_events w w' u :
  step w w' ->
  nonces (vault w) !!! u <= nonces (vault w') !!! u /\
  exists evs, events w' = events w ++ evs.
Proof.
  intros Hstep. destruct Hstep as [env c w Hnow | w l].
  2:{ split; [done|]. exists []. cbn. by rewrite app_nil_r. }
  destruct c as [p|mer b|agent b|tok amt|tok amt to|intent userSig].
  1-5: (match goal with
        | |- context [dispatch ?e ?c] =>
            destruct (transact_frame e c w) as (_ & -> & _); [discriminate|];
            destruct (transact_frame_events e c w) as (evs & -> & _);
              [discriminate|];
            split; [done | by exists evs]
        end).
  cbn [dispatch].
  destruct (transact_executeIntent_world env intent userSig w)
    as [-> | (win1 & win2 & l & _ & _ & ->)].
  { split; [done|]. exists []. by rewrite app_nil_r. }
  cbn [snd]. rewrite committed_nonces. split.
  - case_decide; [subst u|]; lia.
  - unfold committed; cbn [events]. eauto.
Qed.

(** X5. Whatever the chain does, no nonce ever decreases and the event
    log only grows: a later world's log extends the earlier one. *)
Theorem steps_monotone w w' :
  rtc step w w' ->
  (forall u, nonces (vault w) !!! u <= nonces (vault w') !!! u) /\
  exists evs, events w' = events w ++ evs.
Proof.
  induction 1 as [w | w1 w2 w3 Hstep Hrest [IHn (evs' & IHe)]].
  - split; [done|]. exists []. by rewrite app_nil_r.
  - split.
    + intros u. destruct (step_nonce_events w1 w2 u Hstep) as (Hn & _).
      specialize (IHn u). lia.
    + destruct (step_nonce_events w1 w2 0 Hstep) as (_ & evs & Hevs).
      exists (evs ++ evs'). by rewrite IHe, Hevs, app_assoc.
Qed.

(** ** Rolling twice, fresh windows and the views *)

(** A window that carries the clocks of a window rolled at [now] does not
    roll again at [now]. *)
Lemma spec_no_reroll now win win2 :
  valid_timestamp now -> window_ok win ->
  weekStart win2 = weekStart (spec_rollIfExpired now win) ->
  monthStart win2 = monthStart (spec_rollIfExpired now win) ->
  spec_rollIfExpired now win2 = win2.
Proof.
  intros Hnow Hok Hws Hms. pose proof days_facts as (H7 & H730 & _).
  assert (H30 : 0 < THIRTY_DAYS) by lia.
  unfold valid_timestamp in Hnow.
  unfold spec_rollIfExpired in *.
  destruct Hok as [-> | [Hw Hm]]; cbn in Hws, Hms.
  - rewrite Hws, Hms.
    destruct (now =? 0) eqn:H0; [apply N.eqb_eq in H0; lia|].
    rewrite N.sub_diag.
    destruct (SEVEN_DAYS <=? 0) eqn:Ha; [apply N.leb_le in Ha; lia|].
    destruct (THIRTY_DAYS <=? 0) eqn:Hb; [apply N.leb_le in Hb; lia|].
    destruct win2; cbn in *; by subst.
  - unfold valid_timestamp in Hw, Hm.
    destruct (weekStart win =? 0) eqn:H0; [apply N.eqb_eq in H0; lia|].
    cbn in Hws, Hms.
    assert (Hw2 : (SEVEN_DAYS <=? now - weekStart win2) = false).
    { rewrite Hws. destruct (SEVEN_DAYS <=? now - weekStart win) eqn:Hc.
      - rewrite N.sub_diag. apply N.leb_gt. lia.
      - exact Hc. }
    assert (Hm2 : (THIRTY_DAYS <=? now - monthStart win2) = false).
    { rewrite Hms. destruct (THIRTY_DAYS <=? now - monthStart win) eqn:Hc.
      - rewrite N.sub_diag. apply N.leb_gt. lia.
      - exact Hc. }
    assert (Hnz : (weekStart win2 =? 0) = false).
    { rewrite Hws. apply N.eqb_neq.
      destruct (SEVEN_DAYS <=? now - weekStart win); lia. }
    rewrite Hnz, Hw2, Hm2. by destruct win2.
Qed.

Lemma spec_rolled_ok now win :
  valid_timestamp now -> window_ok win ->
  window_ok (spec_rollIfExpired now win).
Proof.
  intros Hnow Hok. right. apply (rolled_ok now win); [done | done |].
  by apply rolled_spec.
Qed.

(** X6. Rolling is idempotent at a given time: in a reachable world, a
    second [_rollWindowsIfNeeded] at the same block timestamp changes
    nothing the first one stored. *)
Theorem rollWindows_idempotent env usr w :
  reachable w ->
  valid_timestamp (block_timestamp env) ->
  exists w1,
    _rollWindowsIfNeeded env usr w = Ok (tt, w1) /\
    _rollWindowsIfNeeded env usr w1 = Ok (tt, w1).
Proof.
  intros Hreach Hnow.
  pose proof (reachable_window_ok w usr Hreach) as Hok.
  eexists. split; [by apply rollWindows_reachable|].
  rewrite run_rollWindows. cbn [vault ledger events].
  rewrite spend_set_spend.
  rewrite rolled_spec by eauto using spec_rolled_ok.
  rewrite set_spend_set_spend.
  by rewrite (spec_no_reroll _ (spend (vault w) !!! usr)).
Qed.

(** Where the cap reverts of [executeIntent] come from. *)
Lemma outcome_cap_revert env intent userSig w r :
  outcome env intent userSig w = Err r ->
  r = RweeklyCap \/ r = RmonthlyCap ->
  validated env intent (vault w) /\
  exists win1,
    rolled (block_timestamp env) (spend (vault w) !!! user intent) = Ok win1 /\
    reserved (policyOf (vault w) !!! user intent) (amount intent) win1 = Err r.
Proof.
  intros Hout Hr. unfold outcome in Hout.
  destruct (first_failing (validation_checks env intent (vault w)))
    as [r0|] eqn:Hval.
  { injection Hout as ->. apply validation_errors in Hval. cbn in Hval.
    destruct Hr as [-> | ->];
      repeat (destruct Hval as [Hval | Hval]; [discriminate|]); done. }
  pose proof (authorization_checks_spec env intent userSig (vault w)) as Hauth.
  destruct (first_failing (authorization_checks env intent userSig (vault w)))
    as [r0|].
  { injection Hout as ->. destruct Hauth as [_ Hk].
    destruct Hr as [-> | ->]; discriminate. }
  split; [by apply validated_checks|].
  unfold settled in Hout. cbv zeta in Hout.
  destruct (rolled _ _) as [win1|r1] eqn:Hroll.
  2:{ injection Hout as ->. apply rolled_errors in Hroll as ->.
      destruct Hr; discriminate. }
  exists win1. split; [reflexivity|].
  destruct (reserved _ _ win1) as [win2|r2]; [|congruence].
  destruct (_ <? UINT256_MODULUS);
    [|injection Hout as <-; destruct Hr; discriminate].
  destruct (erc20_transfer _ _ _ _ _) as [[[] l]|]; try discriminate;
    injection Hout as <-; destruct Hr; discriminate.
Qed.

(** An empty counter passes its cap check for an amount within the cap. *)
Lemma reserved_fresh p amt win r :
  reserved p amt win = Err r ->
  (weekSpent win = 0 -> amt <= weeklyCap p -> r <> RweeklyCap) /\
  (monthSpent win = 0 -> amt <= monthlyCap p -> r <> RmonthlyCap).
Proof.
  unfold reserved. intros Hres. split; intros H0 Hle; rewrite ?H0 in Hres;
    rewrite ?N.add_0_l in Hres.
  - destruct (amt <? UINT256_MODULUS); [|by injection Hres as <-].
    destruct (amt <=? weeklyCap p) eqn:Hc; [|apply N.leb_gt in Hc; lia].
    repeat match type of Hres with
           | (if ?c then _ else _) = _ => destruct c
           end; try discriminate; by injection Hres as <-.
  - repeat match type of Hres with
           | (if ?c then _ else _) = _ => destruct c eqn:?
           end; try discriminate; injection Hres as <-; try discriminate.
    intros _. match goal with H : (amt <=? monthlyCap p) = false |- _ =>
                apply N.leb_gt in H; lia end.
Qed.

(** X7. A fresh window never trips its cap: in a reachable world, when the
    account's week is unset or has expired, [executeIntent] does not revert
    with [WeeklyCapExceeded], and when its month is unset or has expired,
    not with [MonthlyCapExceeded]; the per-transaction cap, which
    [setPolicy] keeps below both, already bounds the amount. *)
Theorem fresh_window_not_capped env intent userSig w :
  reachable w ->
  valid_timestamp (block_timestamp env) ->
  let now := block_timestamp env in
  let win := spend (vault w) !!! user intent in
  (weekStart win = 0 \/ SEVEN_DAYS <= now - weekStart win ->
     fst (transact (executeIntent env intent userSig) w) <> Reverted RweeklyCap) /\
  (weekStart win = 0 \/ THIRTY_DAYS <= now - monthStart win ->
     fst (transact (executeIntent env intent userSig) w) <> Reverted RmonthlyCap).
Proof.
  intros Hreach Hnow now win.
  pose proof (reachable_window_ok w (user intent) Hreach) as Hok.
  pose proof (policy_ok_reachable w (user intent) Hreach) as [Hpw Hpm].
  rewrite transact_executeIntent.
  assert (Hfresh : forall r, outcome env intent userSig w = Err r ->
            r = RweeklyCap \/ r = RmonthlyCap ->
            amount intent <= perTxCap (policyOf (vault w) !!! user intent) /\
            reserved (policyOf (vault w) !!! user intent) (amount intent)
              (spec_rollIfExpired now win) = Err r).
  { intros r Hout Hr.
    destruct (outcome_cap_revert _ _ _ _ _ Hout Hr)
      as ((_ & _ & _ & Hcap & _) & win1 & Hroll & Hres).
    rewrite rolled_spec in Hroll by done. by injection Hroll as <-. }
  split; intros Hw Hrev;
    (destruct (outcome env intent userSig w) as [w'|r] eqn:Hout;
       [discriminate|]); injection Hrev as ->;
    (destruct (Hfresh _ eq_refl) as (Hcap & Hres); [tauto|]).
  - destruct (reserved_fresh _ _ _ _ Hres) as [Hno _].
    apply Hno; [|lia|reflexivity].
    unfold spec_rollIfExpired. fold win.
    destruct (weekStart win =? 0) eqn:H0; [reflexivity|]. cbn.
    destruct Hw as [Hw | Hw]; [apply N.eqb_neq in H0; done|].
    apply N.leb_le in Hw. by rewrite Hw.
  - destruct (reserved_fresh _ _ _ _ Hres) as [_ Hno].
    apply Hno; [|lia|reflexivity].
    unfold spec_rollIfExpired. fold win.
    destruct (weekStart win =? 0) eqn:H0; [reflexivity|]. cbn.
    destruct Hw as [Hw | Hw]; [apply N.eqb_neq in H0; done|].
    apply N.leb_le in Hw. by rewrite Hw.
Qed.

(** The views on a window that is untouched or has both clocks set. *)
Lemma run_remaining env u w :
  window_ok (spend (vault w) !!! u) ->
  valid_timestamp (block_timestamp env) ->
  remainingWeekly env u w =
    Ok (spec_remaining (weeklyCap (policyOf (vault w) !!! u))
          (weekSpent (spec_rollIfExpired (block_timestamp env)
                        (spend (vault w) !!! u))), w) /\
  remainingMonthly env u w =
    Ok (spec_remaining (monthlyCap (policyOf (vault w) !!! u))
          (monthSpent (spec_rollIfExpired (block_timestamp env)
                         (spend (vault w) !!! u))), w).
Proof.
  intros Hok Hnow. pose proof days_facts as (H7 & H730 & Hbound).
  unfold remainingWeekly, remainingMonthly, _viewRolledWeek, _viewRolledMonth,
    spec_remaining, spec_rollIfExpired.
  run. remember (spend (vault w) !!! u) as win eqn:Hwin. clear Hwin.
  destruct Hok as [-> | [Hws Hms]].
  { cbn [weekStart weekSpent monthStart monthSpent N.eqb]. run. cbn [snd].
    split; by destruct (_ <=? 0). }
  unfold valid_timestamp in *.
  destruct (weekStart win =? 0) eqn:Hw0; [apply N.eqb_eq in Hw0; lia|].
  destruct (monthStart win =? 0) eqn:Hm0; [apply N.eqb_eq in Hm0; lia|].
  run. cbn [weekSpent monthSpent].
  destruct (weekStart win + SEVEN_DAYS <? UINT256_MODULUS) eqn:Ho1;
    [|apply N.ltb_ge in Ho1; lia].
  destruct (monthStart win + THIRTY_DAYS <? UINT256_MODULUS) eqn:Ho2;
    [|apply N.ltb_ge in Ho2; lia].
  assert (Hw : (weekStart win + SEVEN_DAYS <=? block_timestamp env)
               = (SEVEN_DAYS <=? block_timestamp env - weekStart win)).
  { apply eq_true_iff_eq. rewrite !N.leb_le. lia. }
  assert (Hm : (monthStart win + THIRTY_DAYS <=? block_timestamp env)
               = (THIRTY_DAYS <=? block_timestamp env - monthStart win)).
  { apply eq_true_iff_eq. rewrite !N.leb_le. lia. }
  rewrite Hw, Hm. split.
  - destruct (SEVEN_DAYS <=? block_timestamp env - weekStart win); run; cbn [snd];
      by destruct (weeklyCap _ <=? _).
  - destruct (THIRTY_DAYS <=? block_timestamp env - monthStart win); run; cbn [snd];
      by destruct (monthlyCap _ <=? _).
Qed.

(** X8. The views predict the spend: in a reachable world, if
    [executeIntent] succeeds at some block timestamp, then at that
    timestamp [remainingWeekly] and [remainingMonthly] of the account were
    at least the amount just before, and are exactly the amount less just
    after. *)
Theorem remaining_predicts_spend env intent userSig w w' :
  reachable w ->
  valid_timestamp (block_timestamp env) ->
  transact (executeIntent env intent userSig) w = (Success, w') ->
  exists wk mo,
    remainingWeekly env (user intent) w = Ok (wk, w) /\
    remainingMonthly env (user intent) w = Ok (mo, w) /\
    amount intent <= wk /\
    amount intent <= mo /\
    remainingWeekly env (user intent) w' = Ok (wk - amount intent, w') /\
    remainingMonthly env (user intent) w' = Ok (mo - amount intent, w').
Proof.
  intros Hreach Hnow Hok.
  pose proof (reachable_window_ok w (user intent) Hreach) as Hwin.
  apply executeIntent_success in Hok
    as (Hval & _ & win1 & win2 & l & Hroll & Hres & _ & _ & ->).
  destruct Hval as (_ & _ & Hamt & _).
  rewrite rolled_spec in Hroll by done. injection Hroll as <-.
  set (now := block_timestamp env) in *.
  set (win := spend (vault w) !!! user intent) in *.
  set (p := policyOf (vault w) !!! user intent) in *.
  destruct (run_remaining env (user intent) w Hwin Hnow) as (Hwk & Hmo).
  fold now win p in Hwk, Hmo.
  apply reserved_starts in Hres as Hstarts. destruct Hstarts as [Hs1 Hs2].
  apply reserved_ok in Hres as (Hw2 & Hm2 & Hwcap & Hmcap).
  assert (Hwin2 : spend (vault (committed intent win2 l w)) !!! user intent = win2).
  { rewrite committed_spend. by rewrite decide_True. }
  assert (Hok2 : window_ok win2).
  { right. rewrite Hs1, Hs2. apply (rolled_ok now win); [done | done |].
    by apply rolled_spec. }
  destruct (run_remaining env (user intent) (committed intent win2 l w))
    as (Hwk' & Hmo'); [by rewrite Hwin2 | done |].
  rewrite Hwin2, committed_policyOf in Hwk', Hmo'. fold now p in Hwk', Hmo'.
  rewrite (spec_no_reroll now win win2) in Hwk', Hmo' by done.
  eexists _, _. split; [exact Hwk|]. split; [exact Hmo|].
  rewrite Hwk', Hmo'. unfold spec_remaining.
  rewrite Hw2, Hm2 in *.
  destruct (weeklyCap p <=? weekSpent (spec_rollIfExpired now win)) eqn:Ha;
    [apply N.leb_le in Ha; lia | apply N.leb_gt in Ha].
  destruct (monthlyCap p <=? monthSpent (spec_rollIfExpired now win)) eqn:Hb;
    [apply N.leb_le in Hb; lia | apply N.leb_gt in Hb].
  split; [lia|]. split; [lia|].
  split; f_equal; f_equal.
  - destruct (weeklyCap p <=? _) eqn:Hc;
      [apply N.leb_le in Hc | apply N.leb_gt in Hc]; lia.
  - destruct (monthlyCap p <=? _) eqn:Hc;
      [apply N.leb_le in Hc | apply N.leb_gt in Hc]; lia.
Qed.

(** ** Allowlists *)

Lemma setMerchantAllowed_flag env mer allowed w :
  merchantAllowed (vault (snd (transact (setMerchantAllowed env mer allowed) w)))
    !!! (msg_sender env, mer) = allowed.
Proof.
  unfold transact, setMerchantAllowed. run. cbn [snd vault].
  unfold set_merchantAllowed; cbn. apply lookup_total_insert_eq.
Qed.

Lemma setAgentAllowed_flag env agent allowed w :
  agentAllowed (vault (snd (transact (setAgentAllowed env agent allowed) w)))
    !!! (msg_sender env, agent) = allowed.
Proof.
  unfold transact, setAgentAllowed. run. cbn [snd vault].
  unfold set_agentAllowed; cbn. apply lookup_total_insert_eq.
Qed.

(** X9. [setMerchantAllowed] always succeeds and writes one flag, in the
    caller's own row: the flag reads back as written, every other
    (account, merchant) flag and everything else in the vault is as before,
    and setting the same flag again changes nothing more. *)
Theorem setMerchantAllowed_own_row env mer allowed w :
  let w' := snd (transact (setMerchantAllowed env mer allowed) w) in
  fst (transact (setMerchantAllowed env mer allowed) w) = Success /\
  merchantAllowed (vault w') !!! (msg_sender env, mer) = allowed /\
  (forall k, k <> (msg_sender env, mer) ->
     merchantAllowed (vault w') !!! k = merchantAllowed (vault w) !!! k) /\
  policyOf (vault w') = policyOf (vault w) /\
  agentAllowed (vault w') = agentAllowed (vault w) /\
  spend (vault w') = spend (vault w) /\
  nonces (vault w') = nonces (vault w) /\
  intentUsed (vault w') = intentUsed (vault w) /\
  ledger w' = ledger w /\
  vault (snd (transact (setMerchantAllowed env mer allowed) w')) = vault w'.
Proof.
  unfold transact, setMerchantAllowed. run. cbn [fst snd vault ledger].
  unfold set_merchantAllowed; cbn.
  split_and!; try reflexivity.
  - apply lookup_total_insert_eq.
  - intros k Hk. by apply lookup_total_insert_ne.
  - by rewrite insert_insert_eq.
Qed.

(** X10. [setAgentAllowed] always succeeds and writes one flag, in the
    caller's own row: the flag reads back as written, every other
    (account, agent) flag and everything else in the vault is as before,
    and setting the same flag again changes nothing more. *)
Theorem setAgentAllowed_own_row env agent allowed w :
  let w' := snd (transact (setAgentAllowed env agent allowed) w) in
  fst (transact (setAgentAllowed env agent allowed) w) = Success /\
  agentAllowed (vault w') !!! (msg_sender env, agent) = allowed /\
  (forall k, k <> (msg_sender env, agent) ->
     agentAllowed (vault w') !!! k = agentAllowed (vault w) !!! k) /\
  policyOf (vault w') = policyOf (vault w) /\
  merchantAllowed (vault w') = merchantAllowed (vault w) /\
  spend (vault w') = spend (vault w) /\
  nonces (vault w') = nonces (vault w) /\
  intentUsed (vault w') = intentUsed (vault w) /\
  ledger w' = ledger w /\
  vault (snd (transact (setAgentAllowed env agent allowed) w')) = vault w'.
Proof.
  unfold transact, setAgentAllowed. run. cbn [fst snd vault ledger].
  unfold set_agentAllowed; cbn.
  split_and!; try reflexivity.
  - apply lookup_total_insert_eq.
  - intros k Hk. by apply lookup_total_insert_ne.
  - by rewrite insert_insert_eq.
Qed.

(** X11. Revoking a merchant takes effect at once: after the owner's
    [setMerchantAllowed(merchant, false)], no intent of that account for
    that merchant executes; it reverts at the merchant check or at a check
    before it, whoever calls and even with a valid owner signature. *)
Theorem revoked_merchant_blocked owner_env mer w env intent userSig :
  user intent = msg_sender owner_env ->
  merchant intent = mer ->
  let w' := snd (transact (setMerchantAllowed owner_env mer false) w) in
  exists r,
    transact (executeIntent env intent userSig) w' = (Reverted r, w') /\
    (r = Rexpired \/ r = Ruser0 \/ r = Ramount0 \/ r = RperTxCap
     \/ r = RmerchantNotAllowed).
Proof.
  intros Hu Hm w'.
  assert (Hflag : merchantAllowed (vault w') !!! (user intent, merchant intent)
                  = false).
  { subst w'. rewrite Hu, Hm.
    apply (setMerchantAllowed_flag owner_env mer false w). }
  rewrite transact_executeIntent. unfold outcome.
  unfold validation_checks; cbn [first_failing]. rewrite Hflag.
  destruct (block_timestamp env <=? deadline intent); [|eauto 7].
  destruct (user intent =? 0); cbn [negb]; [eauto 7|].
  destruct (0 <? amount intent); [|eauto 7].
  destruct (amount intent <=? perTxCap _); eauto 8.
Qed.

(** X12. Revoking an agent takes effect at once: after the owner's
    [setAgentAllowed(agent, false)], a call by that agent, who is not the
    owner, that passes validation is [Unauthorized] unless it carries a
    signature that verifies. *)
Theorem revoked_agent_unauthorized owner_env agent w env intent userSig :
  user intent = msg_sender owner_env ->
  msg_sender env = agent ->
  agent <> msg_sender owner_env ->
  let w' := snd (transact (setAgentAllowed owner_env agent false) w) in
  validated env intent (vault w') ->
  _verifyUserSig intent userSig = false ->
  exists r,
    transact (executeIntent env intent userSig) w' = (Reverted r, w') /\
    error_kind r = Some Unauthorized.
Proof.
  intros Hu Hs Hne w' Hval Hsig.
  assert (Hflag : agentAllowed (vault w') !!! (user intent, msg_sender env)
                  = false).
  { subst w'. rewrite Hu, Hs.
    apply (setAgentAllowed_flag owner_env agent false w). }
  apply validated_checks in Hval.
  pose proof (authorization_checks_spec env intent userSig (vault w')) as Hauth.
  rewrite transact_executeIntent. unfold outcome. rewrite Hval.
  destruct (first_failing (authorization_checks env intent userSig (vault w')))
    as [r|]; [exists r; tauto|].
  unfold authorized, spec_authorized in Hauth.
  rewrite Hflag, Hsig in Hauth.
  assert (Hown : (msg_sender env =? user intent) = false)
    by (apply N.eqb_neq; congruence).
  rewrite Hown in Hauth. cbn in Hauth.
  by destruct (requireUserSig _).
Qed.

(** ** Deposits *)

(** X13. [deposit] records nothing: whatever its outcome, the vault's
    storage is as before, so a deposit credits no account and grants no
    spending right.  It succeeds exactly when the amount is positive and
    the token's [transferFrom] from the caller to the vault returns true,
    and a zero amount is refused before the token is called. *)
Theorem deposit_records_nothing env tok amt w :
  vault (snd (transact (deposit env tok amt) w)) = vault w /\
  (fst (transact (deposit env tok amt) w) = Success <->
     0 < amt /\
     exists l, erc20_transferFrom tok this (msg_sender env) this amt (ledger w)
               = Some (true, l)) /\
  (forall l, 0 < amt ->
     erc20_transferFrom tok this (msg_sender env) this amt (ledger w)
       = Some (true, l) ->
     transact (deposit env tok amt) w =
       (Success,
        mkWorld (vault w) l (events w ++ [Deposited (msg_sender env) tok amt]))) /\
  (amt = 0 -> transact (deposit env tok amt) w = (Reverted Ramount0, w)).
Proof.
  unfold transact, deposit. run.
  destruct (0 <? amt) eqn:Hamt;
    [apply N.ltb_lt in Hamt | apply N.ltb_ge in Hamt].
  2:{ cbn [fst snd]. split_and!; [done | | intros; lia | done].
      split; [discriminate | intros (? & _); lia]. }
  destruct (erc20_transferFrom tok this (msg_sender env) this amt (ledger w))
    as [[[] l]|] eqn:Hcall; run; cbn [fst snd vault].
  - split_and!; [done | | | intros; lia].
    + split; [eauto | done].
    + by intros l' _ [= <-].
  - split_and!; [done | | done | intros; lia].
    split; [discriminate | intros (_ & l' & ?); discriminate].
  - split_and!; [done | | done | intros; lia].
    split; [discriminate | intros (_ & l' & ?); discriminate].
Qed.

(** ** The order of the checks *)

(** X14. [executeIntent] reports the first check that fails, in the order
    deadline, user, amount, per-transaction cap, merchant, nonce, consumed
    hash: each of these reverts is reported as soon as the checks before it
    pass, whatever the later checks, the caller and the signature would
    give. *)
Theorem executeIntent_check_order env intent userSig w :
  let s := vault w in
  let rc := fst (transact (executeIntent env intent userSig) w) in
  (deadline intent < block_timestamp env -> rc = Reverted Rexpired) /\
  (block_timestamp env <= deadline intent ->
     (user intent = 0 -> rc = Reverted Ruser0) /\
     (user intent <> 0 ->
        (amount intent = 0 -> rc = Reverted Ramount0) /\
        (0 < amount intent ->
           (perTxCap (policyOf s !!! user intent) < amount intent ->
              rc = Reverted RperTxCap) /\
           (amount intent <= perTxCap (policyOf s !!! user intent) ->
              (merchantAllowed s !!! (user intent, merchant intent) = false ->
                 rc = Reverted RmerchantNotAllowed) /\
              (merchantAllowed s !!! (user intent, merchant intent) = true ->
                 (nonce intent <> nonces s !!! user intent ->
                    rc = Reverted RbadNonce) /\
                 (nonce intent = nonces s !!! user intent ->
                  intentUsed s !!! _hashIntent intent = true ->
                    rc = Reverted RintentUsed)))))).
Proof.
  intros s rc. subst rc s. rewrite transact_executeIntent. unfold outcome.
  unfold validation_checks; cbn [first_failing]. split.
  { intros H1. apply N.leb_gt in H1. by rewrite H1. }
  intros H1. apply N.leb_le in H1. rewrite H1. split.
  { intros H2. apply N.eqb_eq in H2. by rewrite H2. }
  intros H2. apply N.eqb_neq in H2. rewrite H2. cbn [negb]. split.
  { intros H3. by rewrite H3. }
  intros H3. apply N.ltb_lt in H3. rewrite H3. split.
  { intros H4. apply N.leb_gt in H4. by rewrite H4. }
  intros H4. apply N.leb_le in H4. rewrite H4. split.
  { intros H5. by rewrite H5. }
  intros H5. rewrite H5. split.
  { intros H6. apply N.eqb_neq in H6. by rewrite H6. }
  intros H6 H7. apply N.eqb_eq in H6. by rewrite H6, H7.
Qed.

(** ** ABI words and signatures *)

Lemma to_N_byte_of n : Byte.to_N (byte_of n) = n mod 256.
Proof.
  unfold byte_of. destruct (Byte.of_N (n mod 256)) as [b|] eqn:Hb.
  - by apply Byte.to_of_N.
  - apply Byte.of_N_None_iff in Hb.
    pose proof (N.mod_upper_bound n 256). lia.
Qed.

(** The [k] low big-endian digits of a number. *)
Lemma digits_succ (k : nat) n :
  map (fun i : nat => byte_of (n / 256 ^ N.of_nat (S k - 1 - i))) (seq 0 (S k)) =
  byte_of (n / 256 ^ N.of_nat k)
    :: map (fun i : nat => byte_of (n / 256 ^ N.of_nat (k - 1 - i))) (seq 0 k).
Proof.
  cbn [seq map]. f_equal.
  - do 3 f_equal. lia.
  - rewrite <- seq_shift, map_map. apply map_ext. intros i.
    do 3 f_equal. lia.
Qed.

Lemma be_value_digits (k : nat) n acc :
  fold_left (fun a b => a * 256 + Byte.to_N b)
    (map (fun i : nat => byte_of (n / 256 ^ N.of_nat (k - 1 - i))) (seq 0 k)) acc
  = acc * 256 ^ N.of_nat k + n mod 256 ^ N.of_nat k.
Proof.
  revert acc. induction k as [|k IH]; intros acc.
  - cbn. rewrite N.mod_1_r. lia.
  - rewrite digits_succ. cbn [fold_left]. rewrite IH, to_N_byte_of.
    rewrite Nnat.Nat2N.inj_succ, N.pow_succ_r'.
    rewrite (N.mul_comm 256 (256 ^ N.of_nat k)), N.Div0.mod_mul_r. lia.
Qed.

Lemma length_abi_word n : length (abi_word n) = 32%nat.
Proof. unfold abi_word. by rewrite length_map, length_seq. Qed.

Lemma be_value_abi_word n : be_value (abi_word n) = n mod UINT256_MODULUS.
Proof.
  unfold be_value, abi_word.
  change (fun i : nat => byte_of (n / 256 ^ N.of_nat (31 - i)))
    with (fun i : nat => byte_of (n / 256 ^ N.of_nat (32 - 1 - i))).
  rewrite be_value_digits. reflexivity.
Qed.

Lemma abi_word_inj n m :
  n < UINT256_MODULUS -> m < UINT256_MODULUS ->
  abi_word n = abi_word m -> n = m.
Proof.
  intros Hn Hm Heq. apply (f_equal be_value) in Heq.
  rewrite !be_value_abi_word, !N.mod_small in Heq; done.
Qed.

(** X15. A 32-byte word decodes to the value it encodes: [abi_word] gives
    32 bytes, reading them back big-endian, as [calldataload] does, gives
    the value for every value that fits 256 bits, and the value modulo
    [2^256] in general. *)
Theorem abi_word_roundtrip n :
  length (abi_word n) = 32%nat /\
  be_value (abi_word n) = n mod UINT256_MODULUS /\
  (n < UINT256_MODULUS -> be_value (abi_word n) = n).
Proof.
  split; [apply length_abi_word|]. split; [apply be_value_abi_word|].
  intros Hn. by rewrite be_value_abi_word, N.mod_small.
Qed.

(** X16. [_verifyUserSig] reads a serialized signature back field by
    field: on the 65 bytes [r], [s], [v] it recovers with exactly that
    [(v, r, s)], so it accepts the signature exactly when the identity
    recovered from the intent hash is the intent's user. *)
Theorem verifyUserSig_reads_signature intent r s v :
  r < UINT256_MODULUS -> s < UINT256_MODULUS -> v < 256 ->
  length (signature_bytes r s v) = 65%nat /\
  sig_r (signature_bytes r s v) = r /\
  sig_s (signature_bytes r s v) = s /\
  sig_v (signature_bytes r s v) = v /\
  _verifyUserSig intent (signature_bytes r s v)
    = (ecrecover (_hashIntent intent) v r s =? user intent).
Proof.
  intros Hr Hs Hv.
  assert (Hlen : length (signature_bytes r s v) = 65%nat).
  { unfold signature_bytes. by rewrite !length_app, !length_abi_word. }
  assert (Hr' : be_value (take 32 (signature_bytes r s v)) = r).
  { unfold signature_bytes.
    rewrite take_app_length' by (by rewrite length_abi_word).
    by rewrite be_value_abi_word, N.mod_small. }
  assert (Hs' : be_value (take 32 (drop 32 (signature_bytes r s v))) = s).
  { unfold signature_bytes.
    rewrite drop_app_length' by (by rewrite length_abi_word).
    rewrite take_app_length' by (by rewrite length_abi_word).
    by rewrite be_value_abi_word, N.mod_small. }
  assert (Hv' : Byte.to_N (nth 64 (signature_bytes r s v) x00) = v).
  { unfold signature_bytes. rewrite app_assoc, app_nth2;
      rewrite length_app, !length_abi_word; [|lia].
    cbn. by rewrite to_N_byte_of, N.mod_small. }
  split_and!; try done.
  unfold _verifyUserSig. rewrite Hlen. cbn [Nat.eqb negb].
  by rewrite Hr', Hs', Hv'.
Qed.

Lemma abi_encode_cons a ws : abi_encode (a :: ws) = abi_word a ++ abi_encode ws.
Proof. reflexivity. Qed.

Lemma abi_encode_inj ws ws' :
  Forall (fun x => x < UINT256_MODULUS) ws ->
  Forall (fun x => x < UINT256_MODULUS) ws' ->
  length ws = length ws' ->
  abi_encode ws = abi_encode ws' -> ws = ws'.
Proof.
  intros Hws. revert ws'. induction Hws as [|a ws Ha Hws IH];
    intros [|a' ws'] Hws' Hlen Heq; try done.
  inversion Hws' as [|? ? Ha' Hws'']; subst.
  rewrite !abi_encode_cons in Heq.
  apply app_inj_1 in Heq as [Hw Hrest]; [|by rewrite !length_abi_word].
  f_equal; [by apply abi_word_inj | apply IH; auto].
Qed.

(** X17. The bytes hashed for an intent determine the intent: the struct
    encoding is 256 bytes long, it is what [_hashIntent] hashes under the
    domain separator, and two intents whose fields fit their words and
    whose encodings agree are the same intent, field for field. *)
Theorem struct_encoding_injective intent intent' :
  length (struct_encoding intent) = 256%nat /\
  _hashIntent intent =
    keccak256 ([x19; x01] ++ abi_word DOMAIN_SEPARATOR
               ++ abi_word (keccak256 (struct_encoding intent))) /\
  (in_range intent -> in_range intent' ->
   struct_encoding intent = struct_encoding intent' -> intent = intent').
Proof.
  split; [|split; [reflexivity|]].
  - unfold struct_encoding, intent_fields, abi_encode. cbn [map concat].
    by rewrite !length_app, !length_abi_word.
  - intros Hin Hin' Heq. unfold struct_encoding in Heq.
    rewrite !abi_encode_cons in Heq. apply app_inj_1 in Heq as [_ Heq]; [|done].
    apply abi_encode_inj in Heq; [|done|done|done].
    destruct intent, intent'. unfold intent_fields in Heq. cbn in Heq.
    by injection Heq as -> -> -> -> -> -> ->.
Qed.

End Proofs.

(** * The backend and the recommendation engine *)

Section BackendProofs.

Context {chain : Chain}.

Lemma empty_signature_invalid intent : _verifyUserSig intent [] = false.
Proof. reflexivity. Qed.

(** X19. A purchase sent by the backend goes through only in autopay mode
    and only from a trusted signer: when [executePurchaseIntent] succeeds,
    a signer is configured, the account's policy does not require the
    user's signature, the signer is the account itself or one of its
    allowlisted agents, the merchant is allowlisted, the amount is positive
    and within the per-transaction cap, the block is within the hour the
    intent allows, and the account's nonce has grown by one. *)
Theorem purchase_needs_autopay cfg blockTime deadlineMs cartMs usr mer amt w w' :
  executePurchaseIntent cfg blockTime deadlineMs cartMs usr mer amt w
    = (Purchased, w') ->
  exists sender,
    signer cfg = Some sender /\
    requireUserSig (policyOf (vault w) !!! usr) = false /\
    (sender = usr \/ agentAllowed (vault w) !!! (usr, sender) = true) /\
    merchantAllowed (vault w) !!! (usr, mer) = true /\
    0 < amt /\ amt <= perTxCap (policyOf (vault w) !!! usr) /\
    blockTime <= deadlineMs / 1000 + 3600 /\
    nonces (vault w') !!! usr = nonces (vault w) !!! usr + 1.
Proof.
  unfold executePurchaseIntent. cbv zeta.
  destruct (signer cfg) as [sender|]; [|discriminate].
  destruct (transact _ w) as [[|r] w1] eqn:Htx; [|discriminate].
  intros [= <-]. exists sender.
  apply executeIntent_success in Htx
    as (Hval & Hauth & win1 & win2 & l & _ & _ & _ & _ & ->).
  destruct Hval as (Hdl & _ & Hamt & Hcap & Hmer & _).
  unfold authorized, spec_authorized in Hauth.
  rewrite empty_signature_invalid in Hauth. cbn in Hdl, Hamt, Hcap, Hmer, Hauth.
  destruct (requireUserSig (policyOf (vault w) !!! usr)); [discriminate|].
  destruct (sender =? usr) eqn:Hs.
  - apply N.eqb_eq in Hs. split_and!; try done; [by left|].
    rewrite committed_nonces. by rewrite decide_True.
  - destruct (agentAllowed (vault w) !!! (usr, sender)); [|discriminate].
    split_and!; try done; [by right|].
    rewrite committed_nonces. by rewrite decide_True.
Qed.



End BackendProofs.

Section RecommenderProofs.

Import Recommender.
Context {num : JsNumber}.

(** X21. The engine always recommends something: "vegan" gets the two
    vegan items and "keto" the two keto items, and every other diet, a
    missing or empty one included, gets the three items of "balanced". *)
Theorem recommendations_by_diet (preferences : Preferences) :
  let d := or_string (diet preferences) "balanced" in
  let items := map rec (recommendations (generateGroceryRecommendations preferences)) in
  items <> [] /\
  (d = "vegan"%string ->
     items = vegan_items (or_num (budget preferences) (lit "100"))) /\
  (d = "keto"%string -> items = keto_items) /\
  (d <> "vegan"%string -> d <> "keto"%string -> items = balanced_items).
Proof.
  intros d items. subst items. unfold generateGroceryRecommendations.
  cbv zeta. cbn [recommendations]. rewrite map_map. cbn [rec]. rewrite map_id.
  fold d. cbn [app].
  destruct (String.eqb d "vegan") eqn:Hv;
    [apply String.eqb_eq in Hv | apply String.eqb_neq in Hv].
  { rewrite Hv. cbn. split_and!; done. }
  destruct (String.eqb d "keto") eqn:Hk;
    [apply String.eqb_eq in Hk | apply String.eqb_neq in Hk].
  { rewrite Hk. cbn. split_and!; done. }
  cbn [app length Nat.eqb]. rewrite orb_true_r. cbn [app].
  split_and!; done.
Qed.

Lemma In_provider_names x :
  existsb (String.eqb x) provider_names = true -> In x provider_names.
Proof.
  intros Hx. apply existsb_exists in Hx as (y & Hy & Heq).
  apply String.eqb_eq in Heq. by subst.
Qed.

(** X22. Every recommendation names a provider of the provider table. *)
Theorem recommended_providers_exist (preferences : Preferences) :
  Forall (fun r => In (provider (rec r)) provider_names)
    (recommendations (generateGroceryRecommendations preferences)).
Proof.
  unfold generateGroceryRecommendations. cbv zeta. cbn [recommendations].
  apply Forall_map. cbn [rec].
  set (d := or_string (diet preferences) "balanced").
  cbn [app].
  destruct (String.eqb d "vegan") eqn:Hv; destruct (String.eqb d "keto") eqn:Hk;
    cbn [app length Nat.eqb orb]; rewrite ?orb_true_r, ?orb_false_r;
    try destruct (String.eqb d "balanced");
    unfold vegan_items, keto_items, balanced_items; cbn [app];
    repeat (apply List.Forall_cons; [apply In_provider_names; reflexivity|]);
    apply List.Forall_nil.
Qed.

End RecommenderProofs.

(** * The theorems at work on the reference chain *)

Section Scenarios.

Import Demo.
#[local] Existing Instance Ref.chain.

Ltac evaluate :=
  vm_compute; repeat split; first [reflexivity | intro; discriminate].

Lemma w3_validated : validated (at_time agent 200) intent_a (vault w3).
Proof. evaluate. Defined.

Lemma w4_success :
  transact (executeIntent (at_time agent 200) intent_a []) w3 = (Success, w4).
Proof.
  assert (Hfst : fst (transact (executeIntent (at_time agent 200) intent_a []) w3)
                 = Success) by (vm_compute; reflexivity).
  exact (transact_success _ _ Hfst).
Defined.

Lemma timestamp_100 : valid_timestamp 100.
Proof. evaluate. Defined.

Lemma timestamp_200 : valid_timestamp 200.
Proof. evaluate. Defined.

Lemma w4_reachable : reachable w4.
Proof.
  exists funded.
  apply rtc_l with w1;
    [exact (step_call (at_time owner 100) (CsetPolicy policy_a) w0 timestamp_100)|].
  apply rtc_l with w2;
    [exact (step_call (at_time owner 100) (CsetMerchantAllowed merchant_a true) w1
              timestamp_100)|].
  apply rtc_l with w3;
    [exact (step_call (at_time owner 100) (CsetAgentAllowed agent true) w2
              timestamp_100)|].
  apply rtc_l with w4;
    [exact (step_call (at_time agent 200) (CexecuteIntent intent_a []) w3
              timestamp_200)|].
  apply rtc_refl.
Defined.

Lemma v4_reachable : reachable v4.
Proof.
  exists rich.
  apply rtc_l with v1;
    [exact (step_call (at_time owner 100) (CsetPolicy policy_max) v0 timestamp_100)|].
  apply rtc_l with v2;
    [exact (step_call (at_time owner 100) (CsetMerchantAllowed merchant_a true) v1
              timestamp_100)|].
  apply rtc_l with v3;
    [exact (step_call (at_time owner 200) (CexecuteIntent intent_all []) v2
              timestamp_200)|].
  apply rtc_l with v4; [exact (step_ledger v3 refunded)|].
  apply rtc_refl.
Defined.

(** The agent's call passes authorization; a stranger's call, with no
    signature, is [Unauthorized]. *)
Lemma executeIntent_authorization_witness :
  validated (at_time agent 200) intent_a (vault w3) /\
  ~ unauthorized (fst (transact (executeIntent (at_time agent 200) intent_a []) w3)) /\
  unauthorized (fst (transact (executeIntent (at_time stranger 200) intent_a []) w3)).
Proof.
  split; [exact w3_validated|]. split.
  - destruct (executeIntent_authorization (at_time agent 200) intent_a [] w3
                w3_validated) as (_ & _ & Hrule2 & _).
    apply Hrule2; vm_compute; reflexivity.
  - destruct (executeIntent_authorization (at_time stranger 200) intent_a [] w3
                w3_validated) as (_ & _ & _ & _ & Hrule3 & _).
    apply Hrule3; vm_compute; reflexivity.
Defined.

Lemma executeIntent_consumes_witness :
  transact (executeIntent (at_time agent 200) intent_a []) w3 = (Success, w4) /\
  nonces (vault w4) !!! user intent_a = nonces (vault w3) !!! user intent_a + 1 /\
  intentUsed (vault w4) !!! _hashIntent intent_a = true.
Proof.
  split; [exact w4_success|].
  destruct (executeIntent_consumes _ _ _ _ _ w4_success) as (Hn & Hu & _).
  by split.
Defined.

(** A stranger, who deposited nothing, empties the vault. *)
Lemma withdraw_unrestricted_witness :
  stranger <> 0 /\ 0 < 1000 /\
  fst (transact (withdraw (at_time stranger 300) usdc 1000 stranger) w3) = Success /\
  fst (transact (withdraw (at_time owner 300) usdc 1000 stranger) w3) = Success.
Proof.
  assert (H0 : stranger <> 0) by evaluate.
  assert (H1 : 0 < 1000) by evaluate.
  assert (H2 : exists l, erc20_transfer usdc this stranger 1000 (ledger w3)
                         = Some (true, l)).
  { eexists. vm_compute. reflexivity. }
  destruct (withdraw_unrestricted (at_time stranger 300) (at_time owner 300)
              usdc 1000 stranger w3) as (Hsame & _ & _ & Hiff & _).
  split_and!; [done | done | by apply Hiff |].
  rewrite <- Hsame. by apply Hiff.
Defined.

Lemma unfunded_fails :
  fst (transact (executeIntent (at_time agent 200) intent_a []) unfunded)
  = Reverted RtransferFailed.
Proof. vm_compute. reflexivity. Defined.

(** With an empty vault the transfer fails and nothing is kept; with the
    vault funded the same call goes through. *)
Lemma executeIntent_atomic_witness :
  fst (transact (executeIntent (at_time agent 200) intent_a []) unfunded)
    = Reverted RtransferFailed /\
  snd (transact (executeIntent (at_time agent 200) intent_a []) unfunded) = unfunded /\
  fst (transact (executeIntent (at_time agent 200) intent_a [])
         (mkWorld (vault unfunded) funded (events unfunded))) = Success.
Proof.
  split; [exact unfunded_fails|].
  destruct (executeIntent_atomic _ _ _ _ _ unfunded_fails) as (Hsame & Hretry).
  split; [exact Hsame|].
  destruct (Hretry eq_refl) as (_ & _ & Hgo).
  eapply Hgo. vm_compute. reflexivity.
Defined.

Lemma executeIntent_caps_witness :
  transact (executeIntent (at_time agent 200) intent_a []) w3 = (Success, w4) /\
  weekSpent (spend (vault w4) !!! user intent_a)
    <= weeklyCap (policyOf (vault w3) !!! user intent_a) /\
  monthSpent (spend (vault w4) !!! user intent_a)
    <= monthlyCap (policyOf (vault w3) !!! user intent_a).
Proof.
  split; [exact w4_success|].
  destruct (proj1 (executeIntent_caps (at_time agent 200) intent_a [] w3) w4 w4_success)
    as (_ & Hwk & Hmo & _).
  by split.
Defined.

Lemma executeIntent_stale_nonce_witness :
  nonce intent_stale <> nonces (vault w3) !!! user intent_stale /\
  fst (transact (executeIntent (at_time owner 200) intent_stale
         (Ref.sign owner (_hashIntent intent_stale))) w3) = Reverted RbadNonce.
Proof.
  assert (Hn : nonce intent_stale <> nonces (vault w3) !!! user intent_stale)
    by evaluate.
  split; [exact Hn|].
  destruct (executeIntent_stale_nonce (at_time owner 200) intent_stale
              (Ref.sign owner (_hashIntent intent_stale)) w3 Hn)
    as (r & _ & Hr & _ & Hbad).
  rewrite Hr. cbn [fst]. f_equal. apply Hbad; evaluate.
Defined.

Lemma setPolicy_spec_witness :
  (weeklyCap policy_bad < perTxCap policy_bad
   \/ monthlyCap policy_bad < perTxCap policy_bad) /\
  (exists r, transact (setPolicy (at_time owner 100) policy_bad) w0 = (Reverted r, w0) /\
             error_kind r = Some InvalidPolicy) /\
  (perTxCap policy_a <= weeklyCap policy_a /\ perTxCap policy_a <= monthlyCap policy_a) /\
  policyOf (vault w1) !!! owner = policy_a.
Proof.
  assert (Hbad : weeklyCap policy_bad < perTxCap policy_bad
                 \/ monthlyCap policy_bad < perTxCap policy_bad)
    by (left; evaluate).
  assert (Hgood : perTxCap policy_a <= weeklyCap policy_a
                  /\ perTxCap policy_a <= monthlyCap policy_a) by evaluate.
  split; [exact Hbad|]. split.
  - exact (proj1 (setPolicy_spec (at_time owner 100) policy_bad w0) Hbad).
  - split; [exact Hgood|].
    destruct (setPolicy_spec (at_time owner 100) policy_a w0) as (_ & Hset & Hread).
    apply (Hread w1). rewrite (Hset Hgood). reflexivity.
Defined.

(** One week and a second after the first spend the week has rolled and
    the month has not. *)
Lemma rollWindows_spec_witness :
  reachable w4 /\ valid_timestamp (200 + SEVEN_DAYS + 1) /\
  exists w5,
    _rollWindowsIfNeeded (at_time agent (200 + SEVEN_DAYS + 1)) owner w4 = Ok (tt, w5) /\
    spend (vault w5) !!! owner = mkSpendWindow (200 + SEVEN_DAYS + 1) 0 200 40.
Proof.
  assert (Ht : valid_timestamp (200 + SEVEN_DAYS + 1)) by evaluate.
  split; [exact w4_reachable|]. split; [exact Ht|].
  destruct (rollWindows_spec (at_time agent (200 + SEVEN_DAYS + 1)) owner w4
              w4_reachable Ht) as (Hroll & _).
  eexists. split; [exact Hroll|].
  cbn [vault]. rewrite spend_set_spend. vm_compute. reflexivity.
Defined.

(** Thirty days after the first spend the month has rolled and the week,
    restarted on day 25, has not. *)
Example month_rolls_alone :
  spend (vault w5) !!! owner = mkSpendWindow day25 10 200 50 /\
  exists w6,
    _rollWindowsIfNeeded (at_time agent day30) owner w5 = Ok (tt, w6) /\
    spend (vault w6) !!! owner = mkSpendWindow day25 10 day30 0.
Proof.
  split; [vm_compute; reflexivity|].
  assert (Hroll : rolled (block_timestamp (at_time agent day30))
                    (spend (vault w5) !!! owner)
                  = Ok (mkSpendWindow day25 10 day30 0))
    by (vm_compute; reflexivity).
  eexists. split; [rewrite run_rollWindows, Hroll; reflexivity|].
  cbn [vault]. apply spend_set_spend.
Qed.

Lemma verifyUserSig_spec_witness :
  length (@nil byte) <> 65%nat /\
  _verifyUserSig intent_a [] = false /\
  _verifyUserSig intent_a (Ref.sign owner (_hashIntent intent_a)) = true.
Proof.
  assert (Hlen : length (@nil byte) <> 65%nat) by discriminate.
  split; [exact Hlen|]. split.
  - exact (proj1 (verifyUserSig_spec intent_a []) Hlen).
  - apply (proj2 (verifyUserSig_spec intent_a (Ref.sign owner (_hashIntent intent_a)))).
    split; vm_compute; reflexivity.
Defined.

Lemma remaining_views_witness :
  reachable w4 /\ valid_timestamp 300 /\
  exists w5,
    _rollWindowsIfNeeded (at_time stranger 300) owner w4 = Ok (tt, w5) /\
    remainingWeekly (at_time stranger 300) owner w4 =
      Ok (spec_remaining (weeklyCap (policyOf (vault w4) !!! owner))
            (weekSpent (spend (vault w5) !!! owner)), w4) /\
    remainingMonthly (at_time stranger 300) owner w4 =
      Ok (spec_remaining (monthlyCap (policyOf (vault w4) !!! owner))
            (monthSpent (spend (vault w5) !!! owner)), w4).
Proof.
  assert (Ht : valid_timestamp 300) by evaluate.
  split; [exact w4_reachable|]. split; [exact Ht|].
  exact (remaining_views (at_time stranger 300) owner w4 w4_reachable Ht).
Defined.

(** After the first spend of 40, 60 remain this week and 260 this month. *)
Example remaining_after_first_spend :
  match remainingWeekly (at_time stranger 300) owner w4,
        remainingMonthly (at_time stranger 300) owner w4 with
  | Ok (wk, _), Ok (mo, _) => wk = 60 /\ mo = 260
  | _, _ => False
  end.
Proof. evaluate. Qed.

(** C5, as the specification states it, fails here: the account has spent
    the largest [uint256] this week, and an intent for one more token,
    over the weekly cap, is stopped by the arithmetic panic and not by
    [WeeklyCapExceeded]. *)
Lemma reserve_overflow_counterexample :
  reachable v4 /\
  validated (at_time owner 300) intent_one (vault v4) /\
  authorized (at_time owner 300) intent_one [] (vault v4) = true /\
  exists w1,
    _rollWindowsIfNeeded (at_time owner 300) (user intent_one) v4 = Ok (tt, w1) /\
    weeklyCap (policyOf (vault v4) !!! user intent_one)
      < weekSpent (spend (vault w1) !!! user intent_one) + amount intent_one /\
    fst (transact (executeIntent (at_time owner 300) intent_one []) v4)
      = Reverted Panic_overflow /\
    error_kind Panic_overflow <> Some WeeklyCapExceeded.
Proof.
  split; [exact v4_reachable|]. split; [evaluate|]. split; [vm_compute; reflexivity|].
  assert (Hroll : rolled (block_timestamp (at_time owner 300))
                    (spend (vault v4) !!! user intent_one)
                  = Ok (mkSpendWindow 200 MAX_UINT256 200 MAX_UINT256))
    by (vm_compute; reflexivity).
  eexists. split; [rewrite run_rollWindows, Hroll; reflexivity|].
  cbn [vault]. rewrite spend_set_spend.
  split; [evaluate|]. split; [vm_compute; reflexivity | discriminate].
Qed.

(** ** The further properties at work *)

Lemma pair_fst {A B} (x : A * B) (a : A) : fst x = a -> x = (a, snd x).
Proof. destruct x; cbn; congruence. Defined.

Lemma w3_reachable : reachable w3.
Proof.
  exists funded.
  apply rtc_l with w1;
    [exact (step_call (at_time owner 100) (CsetPolicy policy_a) w0 timestamp_100)|].
  apply rtc_l with w2;
    [exact (step_call (at_time owner 100) (CsetMerchantAllowed merchant_a true) w1
              timestamp_100)|].
  apply rtc_l with w3;
    [exact (step_call (at_time owner 100) (CsetAgentAllowed agent true) w2
              timestamp_100)|].
  apply rtc_refl.
Defined.

Lemma w3_to_w4 : rtc step w3 w4.
Proof.
  apply rtc_once.
  exact (step_call (at_time agent 200) (CexecuteIntent intent_a []) w3 timestamp_200).
Defined.

Lemma reachable_policy_invariant_witness :
  reachable w4 /\
  perTxCap (policyOf (vault w4) !!! owner) <= weeklyCap (policyOf (vault w4) !!! owner).
Proof.
  split; [exact w4_reachable|].
  exact (proj1 (reachable_policy_invariant w4 w4_reachable owner)).
Defined.

Lemma no_policy_no_spend_witness :
  policyOf (vault w3) !! user intent_stranger = None /\
  exists r,
    transact (executeIntent (at_time stranger 200) intent_stranger []) w3
      = (Reverted r, w3) /\
    (r = Rexpired \/ r = Ruser0 \/ r = Ramount0 \/ r = RperTxCap).
Proof.
  assert (Hnone : policyOf (vault w3) !! user intent_stranger = None)
    by (vm_compute; reflexivity).
  split; [exact Hnone|].
  exact (no_policy_no_spend (at_time stranger 200) intent_stranger [] w3 Hnone).
Defined.

Lemma executeIntent_frame_witness :
  transact (executeIntent (at_time agent 200) intent_a []) w3 = (Success, w4) /\
  policyOf (vault w4) = policyOf (vault w3) /\
  events w4 = events w3 ++ [IntentExecuted (_hashIntent intent_a) (user intent_a)
                              (merchant intent_a) (token intent_a) (amount intent_a)].
Proof.
  split; [exact w4_success|].
  destruct (executeIntent_frame _ _ _ _ _ w4_success)
    as (Hp & _ & _ & _ & _ & _ & Hev).
  by split.
Defined.

Lemma reachable_nonce_counts_witness :
  reachable w4 /\ nonces (vault w4) !!! owner = executed owner (events w4).
Proof.
  split; [exact w4_reachable|].
  exact (reachable_nonce_counts w4 w4_reachable owner).
Defined.

Lemma steps_monotone_witness :
  rtc step w3 w4 /\
  nonces (vault w3) !!! owner <= nonces (vault w4) !!! owner /\
  exists evs, events w4 = events w3 ++ evs.
Proof.
  split; [exact w3_to_w4|].
  destruct (steps_monotone w3 w4 w3_to_w4) as (Hn & Hev).
  split; [exact (Hn owner) | exact Hev].
Defined.

Lemma rollWindows_idempotent_witness :
  reachable w4 /\ valid_timestamp (200 + SEVEN_DAYS + 1) /\
  exists w5,
    _rollWindowsIfNeeded (at_time agent (200 + SEVEN_DAYS + 1)) owner w4 = Ok (tt, w5) /\
    _rollWindowsIfNeeded (at_time agent (200 + SEVEN_DAYS + 1)) owner w5 = Ok (tt, w5).
Proof.
  assert (Ht : valid_timestamp (200 + SEVEN_DAYS + 1)) by evaluate.
  split; [exact w4_reachable|]. split; [exact Ht|].
  exact (rollWindows_idempotent (at_time agent (200 + SEVEN_DAYS + 1)) owner w4
           w4_reachable Ht).
Defined.

Lemma fresh_window_not_capped_witness :
  reachable w4 /\ valid_timestamp (200 + SEVEN_DAYS + 1) /\
  SEVEN_DAYS <= 200 + SEVEN_DAYS + 1 - weekStart (spend (vault w4) !!! user intent_b) /\
  fst (transact (executeIntent (at_time agent (200 + SEVEN_DAYS + 1)) intent_b []) w4)
    <> Reverted RweeklyCap.
Proof.
  assert (Ht : valid_timestamp (200 + SEVEN_DAYS + 1)) by evaluate.
  assert (Hfresh : SEVEN_DAYS <= 200 + SEVEN_DAYS + 1
                     - weekStart (spend (vault w4) !!! user intent_b)) by evaluate.
  split; [exact w4_reachable|]. split; [exact Ht|]. split; [exact Hfresh|].
  apply (fresh_window_not_capped (at_time agent (200 + SEVEN_DAYS + 1)) intent_b []
           w4 w4_reachable Ht).
  right. exact Hfresh.
Defined.

Lemma remaining_predicts_spend_witness :
  reachable w3 /\ valid_timestamp 200 /\
  transact (executeIntent (at_time agent 200) intent_a []) w3 = (Success, w4) /\
  exists wk mo,
    remainingWeekly (at_time agent 200) (user intent_a) w3 = Ok (wk, w3) /\
    remainingMonthly (at_time agent 200) (user intent_a) w3 = Ok (mo, w3) /\
    amount intent_a <= wk /\
    amount intent_a <= mo /\
    remainingWeekly (at_time agent 200) (user intent_a) w4
      = Ok (wk - amount intent_a, w4) /\
    remainingMonthly (at_time agent 200) (user intent_a) w4
      = Ok (mo - amount intent_a, w4).
Proof.
  split; [exact w3_reachable|]. split; [exact timestamp_200|].
  split; [exact w4_success|].
  exact (remaining_predicts_spend (at_time agent 200) intent_a [] w3 w4
           w3_reachable timestamp_200 w4_success).
Defined.

Lemma setMerchantAllowed_own_row_witness :
  (owner, merchant_a) <> (stranger, merchant_a) /\
  merchantAllowed
    (vault (snd (transact (setMerchantAllowed (at_time stranger 300) merchant_a true) w3)))
    !!! (owner, merchant_a)
  = merchantAllowed (vault w3) !!! (owner, merchant_a).
Proof.
  assert (Hk : (owner, merchant_a) <> (stranger, merchant_a)) by discriminate.
  split; [exact Hk|].
  destruct (setMerchantAllowed_own_row (at_time stranger 300) merchant_a true w3)
    as (_ & _ & Hother & _).
  exact (Hother (owner, merchant_a) Hk).
Defined.

Lemma setAgentAllowed_own_row_witness :
  (owner, agent) <> (stranger, agent) /\
  agentAllowed
    (vault (snd (transact (setAgentAllowed (at_time stranger 300) agent false) w3)))
    !!! (owner, agent)
  = agentAllowed (vault w3) !!! (owner, agent).
Proof.
  assert (Hk : (owner, agent) <> (stranger, agent)) by discriminate.
  split; [exact Hk|].
  destruct (setAgentAllowed_own_row (at_time stranger 300) agent false w3)
    as (_ & _ & Hother & _).
  exact (Hother (owner, agent) Hk).
Defined.

Lemma revoked_merchant_blocked_witness :
  user intent_b = msg_sender (at_time owner 300) /\
  merchant intent_b = merchant_a /\
  exists r,
    fst (transact (executeIntent (at_time agent 400) intent_b [])
           (snd (transact (setMerchantAllowed (at_time owner 300) merchant_a false) w4)))
      = Reverted r /\
    (r = Rexpired \/ r = Ruser0 \/ r = Ramount0 \/ r = RperTxCap
     \/ r = RmerchantNotAllowed).
Proof.
  split; [reflexivity|]. split; [reflexivity|].
  destruct (revoked_merchant_blocked (at_time owner 300) merchant_a w4
              (at_time agent 400) intent_b [] eq_refl eq_refl) as (r & Hr & Hk).
  exists r. split; [by rewrite Hr | exact Hk].
Defined.

Lemma revoked_agent_validated :
  validated (at_time agent 200) intent_a
    (vault (snd (transact (setAgentAllowed (at_time owner 150) agent false) w3))).
Proof. evaluate. Defined.

Lemma revoked_agent_unauthorized_witness :
  agent <> msg_sender (at_time owner 150) /\
  exists r,
    fst (transact (executeIntent (at_time agent 200) intent_a [])
           (snd (transact (setAgentAllowed (at_time owner 150) agent false) w3)))
      = Reverted r /\
    error_kind r = Some Unauthorized.
Proof.
  assert (Hne : agent <> msg_sender (at_time owner 150)) by discriminate.
  split; [exact Hne|].
  destruct (revoked_agent_unauthorized (at_time owner 150) agent w3
              (at_time agent 200) intent_a [] eq_refl eq_refl Hne
              revoked_agent_validated eq_refl) as (r & Hr & Hk).
  exists r. split; [by rewrite Hr | exact Hk].
Defined.

Lemma deposit_records_nothing_witness :
  0 = 0 /\
  transact (deposit (at_time stranger 300) usdc 0) w3 = (Reverted Ramount0, w3).
Proof.
  split; [reflexivity|].
  destruct (deposit_records_nothing (at_time stranger 300) usdc 0 w3)
    as (_ & _ & _ & Hzero).
  exact (Hzero eq_refl).
Defined.

(** The follow-up of 70 is over the per-transaction cap of 50, whatever
    room the week has left. *)
Lemma executeIntent_check_order_witness :
  block_timestamp (at_time agent 300) <= deadline intent_big /\
  user intent_big <> 0 /\
  0 < amount intent_big /\
  perTxCap (policyOf (vault w4) !!! user intent_big) < amount intent_big /\
  fst (transact (executeIntent (at_time agent 300) intent_big []) w4)
    = Reverted RperTxCap.
Proof.
  assert (H1 : block_timestamp (at_time agent 300) <= deadline intent_big) by evaluate.
  assert (H2 : user intent_big <> 0) by discriminate.
  assert (H3 : 0 < amount intent_big) by evaluate.
  assert (H4 : perTxCap (policyOf (vault w4) !!! user intent_big) < amount intent_big)
    by evaluate.
  split; [exact H1|]. split; [exact H2|]. split; [exact H3|]. split; [exact H4|].
  destruct (executeIntent_check_order (at_time agent 300) intent_big [] w4)
    as (_ & Horder).
  destruct (Horder H1) as (_ & Horder2).
  destruct (Horder2 H2) as (_ & Horder3).
  destruct (Horder3 H3) as (Hcap & _).
  exact (Hcap H4).
Defined.

Lemma abi_word_roundtrip_witness :
  1000000 < UINT256_MODULUS /\ be_value (abi_word 1000000) = 1000000.
Proof.
  assert (H : 1000000 < UINT256_MODULUS) by evaluate.
  split; [exact H|].
  destruct (abi_word_roundtrip 1000000) as (_ & _ & Hback).
  exact (Hback H).
Defined.

Lemma verifyUserSig_reads_signature_witness :
  owner < UINT256_MODULUS /\ _hashIntent intent_a < UINT256_MODULUS /\ 27 < 256 /\
  _verifyUserSig intent_a (signature_bytes owner (_hashIntent intent_a) 27)
    = (ecrecover (_hashIntent intent_a) 27 owner (_hashIntent intent_a)
       =? user intent_a).
Proof.
  assert (Hr : owner < UINT256_MODULUS) by evaluate.
  assert (Hs : _hashIntent intent_a < UINT256_MODULUS) by evaluate.
  assert (Hv : 27 < 256) by evaluate.
  split; [exact Hr|]. split; [exact Hs|]. split; [exact Hv|].
  destruct (verifyUserSig_reads_signature intent_a owner (_hashIntent intent_a) 27
              Hr Hs Hv) as (_ & _ & _ & _ & Hverify).
  exact Hverify.
Defined.

Lemma struct_encoding_injective_witness :
  in_range intent_a /\ in_range intent_b /\
  (struct_encoding intent_a = struct_encoding intent_b -> intent_a = intent_b).
Proof.
  assert (Ha : in_range intent_a) by (repeat constructor; evaluate).
  assert (Hb : in_range intent_b) by (repeat constructor; evaluate).
  split; [exact Ha|]. split; [exact Hb|].
  destruct (struct_encoding_injective intent_a intent_b) as (_ & _ & Hinj).
  exact (Hinj Ha Hb).
Defined.


Lemma backend_purchase :
  fst (executePurchaseIntent backend 200 100000 100001 owner merchant_a 40 w3)
  = Purchased.
Proof. vm_compute. reflexivity. Defined.

Lemma purchase_needs_autopay_witness :
  executePurchaseIntent backend 200 100000 100001 owner merchant_a 40 w3
    = (Purchased,
       snd (executePurchaseIntent backend 200 100000 100001 owner merchant_a 40 w3)) /\
  exists sender,
    signer backend = Some sender /\
    requireUserSig (policyOf (vault w3) !!! owner) = false /\
    (sender = owner \/ agentAllowed (vault w3) !!! (owner, sender) = true).
Proof.
  pose proof (pair_fst _ _ backend_purchase) as Hrun.
  split; [exact Hrun|].
  destruct (purchase_needs_autopay _ _ _ _ _ _ _ _ _ Hrun)
    as (sender & Hs & Hp & Ha & _).
  exists sender. by split_and!.
Defined.


Lemma recommendations_by_diet_witness :
  Recommender.or_string (Recommender.diet paleo) "balanced" <> "vegan"%string /\
  Recommender.or_string (Recommender.diet paleo) "balanced" <> "keto"%string /\
  map Recommender.rec
    (Recommender.recommendations (Recommender.generateGroceryRecommendations paleo))
  = Recommender.balanced_items.
Proof.
  assert (Hv : Recommender.or_string (Recommender.diet paleo) "balanced"
               <> "vegan"%string) by discriminate.
  assert (Hk : Recommender.or_string (Recommender.diet paleo) "balanced"
               <> "keto"%string) by discriminate.
  split; [exact Hv|]. split; [exact Hk|].
  destruct (recommendations_by_diet paleo) as (_ & _ & _ & Hbal).
  exact (Hbal Hv Hk).
Defined.

End Scenarios.
